(** * zothero: the [cite] command-line adapter (src/cpjs/cite.js)

    A shallow embedding of the JavaScript-for-Automation script that
    parses the command line, reads the style, record and locale files,
    drives a CSL engine and post-processes its output, together with the
    properties of the adapter that its specification states. *)

From Stdlib Require Import String Ascii List NArith ZArith Bool Arith Lia.
From Equations Require Import Equations.
From Equations.Prop Require Import Logic.
Import ListNotations.

Set Implicit Arguments.

(** * JavaScript strings and values *)

Module JS.

(** A JavaScript string is a sequence of UTF-16 code units. *)
Definition jstr := list N.

(** Literals of the source are ASCII; [lit] reads one off a Rocq string. *)
Definition lit (s : string) : jstr :=
  List.map N_of_ascii (list_ascii_of_string s).

Fixpoint eqb (s t : jstr) : bool :=
  match s, t with
  | [], [] => true
  | c :: s', d :: t' => N.eqb c d && eqb s' t'
  | _, _ => false
  end.

(** [String.prototype.startsWith] *)
Fixpoint startsWith (s p : jstr) {struct p} : bool :=
  match p, s with
  | [], _ => true
  | d :: p', c :: s' => N.eqb c d && startsWith s' p'
  | _ :: _, [] => false
  end.

Arguments startsWith : simpl never.

(** The values the adapter's option fields and file contents range over. *)
Inductive value :=
| Undefined
| Null
| Str (s : jstr).

(** ToBoolean *)
Definition truthy (v : value) : bool :=
  match v with
  | Undefined | Null => false
  | Str [] => false
  | Str (_ :: _) => true
  end.

(** ToString, as used by template literals and by [+] on strings *)
Definition to_string (v : value) : jstr :=
  match v with
  | Undefined => lit "undefined"
  | Null => lit "null"
  | Str s => s
  end.

(** [a[i]] on an array of strings: out of range reads give [undefined]. *)
Definition index (a : list jstr) (i : nat) : value :=
  match nth_error a i with
  | Some s => Str s
  | None => Undefined
  end.

(** [Array.prototype.join] on an array of strings *)
Fixpoint join (sep : jstr) (a : list jstr) : jstr :=
  match a with
  | [] => []
  | [s] => s
  | s :: rest => s ++ sep ++ join sep rest
  end.

(** Code units that [String.prototype.trim] removes: WhiteSpace and
    LineTerminator of ECMA-262. *)
Definition is_line_terminator (c : N) : bool :=
  (N.eqb c 10 || N.eqb c 13 || N.eqb c 8232 || N.eqb c 8233)%bool.

Definition is_white_space (c : N) : bool :=
  (N.eqb c 9 || N.eqb c 11 || N.eqb c 12 || N.eqb c 32 || N.eqb c 160
   || N.eqb c 5760 || (N.leb 8192 c && N.leb c 8202)
   || N.eqb c 8239 || N.eqb c 8287 || N.eqb c 12288 || N.eqb c 65279)%bool.

Definition is_trimmed (c : N) : bool :=
  (is_white_space c || is_line_terminator c)%bool.

Fixpoint trimStart (s : jstr) : jstr :=
  match s with
  | [] => []
  | c :: s' => if is_trimmed c then trimStart s' else s
  end.

Definition trimEnd (s : jstr) : jstr := rev (trimStart (rev s)).

(** [String.prototype.trim] *)
Definition trim (s : jstr) : jstr := trimEnd (trimStart s).

(** ** Numbers, as far as a loop counter needs them *)

Inductive number :=
| NaN
| Num (z : Z).

(** A variable that is declared but not initialised holds [undefined]. *)
Inductive counter :=
| CUndefined
| CNum (n : number).

(** ToNumber *)
Definition to_number (c : counter) : number :=
  match c with
  | CUndefined => NaN
  | CNum n => n
  end.

(** The [<] operator: a comparison with NaN on either side is false. *)
Definition lt (a b : number) : bool :=
  match a, b with
  | Num x, Num y => Z.ltb x y
  | _, _ => false
  end.

(** Postfix [++]: the operand is converted to a number and incremented. *)
Definition incr (c : counter) : counter :=
  match to_number c with
  | NaN => CNum NaN
  | Num z => CNum (Num (z + 1))
  end.

(** [a[i]] for a counter: only a non-negative integer names an element. *)
Definition at_counter {A} (a : list A) (c : counter) : option A :=
  match c with
  | CNum (Num z) => if Z.ltb z 0 then None else nth_error a (Z.to_nat z)
  | _ => None
  end.

End JS.

Import JS.

(** * Outcomes of a computation that may end the process or throw *)

Inductive Outcome (A : Type) :=
| Return (a : A)
| Exit (status : Z) (console : list jstr)
| Throw (error : jstr).

Arguments Return {A} a.
Arguments Exit {A} status console.
Arguments Throw {A} error.

Definition bind {A B} (m : Outcome A) (k : A -> Outcome B) : Outcome B :=
  match m with
  | Return a => k a
  | Exit st out => Exit st out
  | Throw e => Throw e
  end.

Notation "x <- m ;; k" := (bind m (fun x => k))
  (at level 61, m at next level, right associativity).
Notation "m ;;; k" := (bind m (fun _ => k))
  (at level 61, right associativity).

(** [Array.prototype.forEach] with a callback that may end the process *)
Fixpoint forEach {A} (a : list A) (f : A -> Outcome unit) : Outcome unit :=
  match a with
  | [] => Return tt
  | x :: rest => f x ;;; forEach rest f
  end.

(** * The script *)

Module Cite.

(** ** [Array.prototype.contains] (lines 7-13) *)

Section Contains.
Context {A : Type}.
(** [===] on the elements, and the value [undefined] *)
Variable strict_eq : A -> A -> bool.
Variable undef : A.

(** [this[i]] *)
Definition elem (this : list A) (i : counter) : A :=
  match at_counter this i with
  | Some x => x
  | None => undef
  end.

(** What is left to visit: the loop runs only while the counter is a
    number below [this.length]. *)
Definition remaining (this : list A) (i : counter) : nat :=
  match to_number i with
  | Num z => Z.to_nat (Z.of_nat (List.length this) - z)
  | NaN => 0
  end.

(** The [for] loop from the value [i] of the counter on. *)
Equations? contains_loop (this : list A) (val : A) (i : counter) : bool
  by wf (remaining this i) Nat.lt :=
  contains_loop this val i
    with inspect (lt (to_number i) (Num (Z.of_nat (List.length this)))) := {
    | exist _ false _ => false;
    | exist _ true Hlt =>
      if strict_eq (elem this i) val then true
      else contains_loop this val (incr i) }.
Proof.
  unfold remaining, incr.
  destruct (to_number i) as [|z]; simpl in *; [discriminate|].
  apply Z.ltb_lt in Hlt. lia.
Qed.

(** [for (var i; ...)]: the counter is declared without a value. *)
Definition contains (this : list A) (val : A) : bool :=
  contains_loop this val CUndefined.

(** The loop as it would run when counting from zero. *)
Definition contains_from_zero (this : list A) (val : A) : bool :=
  contains_loop this val (CNum (Num 0)).
End Contains.

(** ** Usage text and [showHelp] (lines 15-42) *)

Definition nl : jstr := [10%N].

Definition usage : jstr :=
  concat (List.map (fun l => lit l ++ nl)
    [ "cite [options] <style.csl> <csl.json>";
      "";
      "Generate an HTML CSL citation for item defined in <csl.json> using";
      "the stylesheet specified by <style.csl>.";
      "";
      "Usage:";
      "    cite [-b] [-v] [-l <lang>] [-L <dir>] <style.csl> <csl.json>";
      "    cite (-h|--help)";
      "";
      "Options:";
      "        -b, --bibliography               Generate bibliography-style citation";
      "        -l <lang>, --locale <lang>       Locale for citation";
      "        -L <dir>, --locale-dir <dir>     Directory locale files are in";
      "        -v, --verbose                    Show status messages";
      "        -h, --help                       Show this message and exit";
      "" ]%string).

(** [showHelp] prints to the console and ends the process with [$.exit]. *)
Definition showHelp {A} (errMsg : value) : Outcome A :=
  if truthy errMsg
  then Exit 1 [lit "error: " ++ to_string errMsg; usage]
  else Exit 0 [usage].

(** ** [parseArgs] (lines 45-104) *)

Record Opts := mkOpts {
  locale : value;
  localeDir : value;
  style : value;
  csl : value;
  bibliography : bool;
  verbose : bool
}.

Definition default_opts : Opts :=
  mkOpts Null (Str (lit "./locales")) Null Null false false.

Definition set_locale (o : Opts) (v : value) : Opts :=
  mkOpts v (localeDir o) (style o) (csl o) (bibliography o) (verbose o).
Definition set_localeDir (o : Opts) (v : value) : Opts :=
  mkOpts (locale o) v (style o) (csl o) (bibliography o) (verbose o).
Definition set_style (o : Opts) (v : value) : Opts :=
  mkOpts (locale o) (localeDir o) v (csl o) (bibliography o) (verbose o).
Definition set_csl (o : Opts) (v : value) : Opts :=
  mkOpts (locale o) (localeDir o) (style o) v (bibliography o) (verbose o).
Definition set_bibliography (o : Opts) (b : bool) : Opts :=
  mkOpts (locale o) (localeDir o) (style o) (csl o) b (verbose o).
Definition set_verbose (o : Opts) (b : bool) : Opts :=
  mkOpts (locale o) (localeDir o) (style o) (csl o) (bibliography o) b.

Definition is_help (s : jstr) : bool :=
  eqb s (lit "-h") || eqb s (lit "--help").
Definition is_locale (s : jstr) : bool :=
  eqb s (lit "--locale") || eqb s (lit "-l").
Definition is_localeDir (s : jstr) : bool :=
  eqb s (lit "--locale-dir") || eqb s (lit "-L").
Definition is_bibliography (s : jstr) : bool :=
  eqb s (lit "--bibliography") || eqb s (lit "-b").
Definition is_verbose (s : jstr) : bool :=
  eqb s (lit "--verbose") || eqb s (lit "-v").

(** The body of the [for] loop of lines 64-91 at a flag or argument [s]
    read at index [i]: either the process ends, or the loop goes on at a
    later index with updated options and positional arguments. *)
Definition step (argv : list jstr) (i : nat) (s : jstr)
    (opts : Opts) (args : list jstr) : Outcome (nat * Opts * list jstr) :=
  if startsWith s (lit "-") then
    if is_locale s then
      Return (i + 2, set_locale opts (index argv (i + 1)), args)
    else if is_localeDir s then
      Return (i + 2, set_localeDir opts (index argv (i + 1)), args)
    else if is_bibliography s then
      Return (i + 1, set_bibliography opts true, args)
    else if is_verbose s then
      Return (i + 1, set_verbose opts true, args)
    else
      showHelp (Str (lit "unknown option: " ++ s))
  else
    Return (i + 1, opts, args ++ [s]).

(** The [for] loop of lines 64-91 from index [i] on, with the options and
    the positional arguments collected so far. *)
Equations? scan (argv : list jstr) (i : nat) (opts : Opts) (args : list jstr)
  : Outcome (Opts * list jstr) by wf (List.length argv - i) Nat.lt :=
  scan argv i opts args with inspect (nth_error argv i) := {
    | exist _ None _ => Return (opts, args);
    | exist _ (Some s) Hs with inspect (step argv i s opts args) := {
      | exist _ (Return (j, opts', args')) Hj => scan argv j opts' args';
      | exist _ (Exit st out) _ => Exit st out;
      | exist _ (Throw e) _ => Throw e } }.
Proof.
  assert (i < List.length argv) by (apply nth_error_Some; congruence).
  unfold step, showHelp in Hj.
  repeat match type of Hj with
         | (if ?c then _ else _) = _ => destruct c
         end; inversion Hj; subst; lia.
Qed.

(** Lines 93-103: the checks on the positional arguments. *)
Definition finish (r : Opts * list jstr) : Outcome Opts :=
  let (opts, args) := r in
  (if 2 <? List.length args
   then showHelp (Str (lit "script takes 2 arguments"))
   else Return tt) ;;;
  let opts := if 0 <? List.length args then set_style opts (index args 0) else opts in
  let opts := if 1 <? List.length args then set_csl opts (index args 1) else opts in
  Return opts.

Definition parseArgs (argv : list jstr) : Outcome Opts :=
  forEach argv (fun s => if is_help s then showHelp Undefined else Return tt) ;;;
  (if List.length argv =? 0 then showHelp Undefined else Return tt) ;;;
  r <- scan argv 0 default_opts [] ;;
  finish r.

Definition words (l : list string) : list jstr := List.map lit l.

(** ** [readFile] (lines 106-110) *)

(** The values [JSON.parse] produces; the fields of an object are in the
    order of the text. *)
#[warnings="-register-all"]
Inductive Json :=
| JNull
| JBool (b : bool)
| JNumber (digits : jstr)
| JString (s : jstr)
| JArray (items : list Json)
| JObject (fields : list (jstr * Json)).

(** The Objective-C bridge as the script uses it. Foundation reports a
    failure of either call by returning nil, not by raising:
    [contentsAtPath:] gives the bytes of the file, or nil when the path
    names no readable file; [initWithData:encoding:] gives the decoded
    string, or nil. [parse] is the built-in [JSON.parse] applied to the
    text of its argument. *)
Record Platform := mkPlatform {
  contentsAtPath : value -> option (list N);
  initWithDataEncoding : option (list N) -> option jstr;
  parse : jstr -> Outcome Json
}.

(** [ObjC.unwrap]: nil becomes [undefined]. *)
Definition unwrap (o : option jstr) : value :=
  match o with
  | Some s => Str s
  | None => Undefined
  end.

Definition readFile (pf : Platform) (path : value) : Outcome value :=
  let contents := initWithDataEncoding pf (contentsAtPath pf path) in
  Return (unwrap contents).

(** ** [stripOuterDiv] (lines 113-119) *)

(** Backtracking matchers in the style of ECMA-262, for the constructs the
    pattern uses. A match state is the index reached, the input that is
    left, and the text of capture group 1. *)
Module RegExp.

Record mstate := mkState {
  pos : nat;
  rest : jstr;
  group1 : option jstr
}.

Definition cont := mstate -> option mstate.
Definition matcher := mstate -> cont -> option mstate.

(** A single character of a class *)
Definition class (p : N -> bool) : matcher := fun x k =>
  match rest x with
  | c :: r => if p c then k (mkState (S (pos x)) r (group1 x)) else None
  | [] => None
  end.

Definition char (c : N) : matcher := class (N.eqb c).

Definition empty : matcher := fun x k => k x.

Definition seq (m1 m2 : matcher) : matcher := fun x k =>
  m1 x (fun y => m2 y k).

(** A run of literal characters *)
Fixpoint chars (cs : jstr) : matcher :=
  match cs with
  | [] => empty
  | c :: cs' => seq (char c) (chars cs')
  end.

(** [.] matches any code unit but a line terminator (no [s] flag). *)
Definition dot (c : N) : bool := negb (is_line_terminator c).

(** [p*?]: first try to go on without taking a character, then take one
    more and try again. *)
Fixpoint lazy_star (p : N -> bool) (i : nat) (r : jstr) (g : option jstr)
    (k : cont) : option mstate :=
  match k (mkState i r g) with
  | Some y => Some y
  | None =>
    match r with
    | c :: r' => if p c then lazy_star p (S i) r' g k else None
    | [] => None
    end
  end.

Definition star_lazy (p : N -> bool) : matcher := fun x k =>
  lazy_star p (pos x) (rest x) (group1 x) k.

(** [p*]: first take one more character and try again, then try to go on
    from here. *)
Fixpoint greedy_star (p : N -> bool) (i : nat) (r : jstr) (g : option jstr)
    (k : cont) : option mstate :=
  match r with
  | c :: r' =>
    if p c then
      match greedy_star p (S i) r' g k with
      | Some y => Some y
      | None => k (mkState i r g)
      end
    else k (mkState i r g)
  | [] => k (mkState i r g)
  end.

Definition star_greedy (p : N -> bool) : matcher := fun x k =>
  greedy_star p (pos x) (rest x) (group1 x) k.

(** [p+] *)
Definition plus_greedy (p : N -> bool) : matcher :=
  seq (class p) (star_greedy p).

(** [( ... )] as group 1: on the way out, record what was matched. *)
Definition capture1 (m : matcher) : matcher := fun x k =>
  m x (fun y =>
    k (mkState (pos y) (rest y) (Some (firstn (pos y - pos x) (rest x))))).

(** [^] and [$] without the [m] flag *)
Definition bol : matcher := fun x k =>
  if pos x =? 0 then k x else None.

Definition eol : matcher := fun x k =>
  match rest x with
  | [] => k x
  | _ :: _ => None
  end.

(** [RegExp.prototype.exec] for a pattern without [g] or [y]: the match is
    tried at index 0, then at 1, and so on up to the length of the input. *)
Fixpoint exec_from (m : matcher) (i : nat) (input : jstr) : option mstate :=
  match m (mkState i input None) (fun y => Some y) with
  | Some y => Some y
  | None =>
    match input with
    | [] => None
    | _ :: r => exec_from m (S i) r
    end
  end.

Definition exec (m : matcher) (input : jstr) : option mstate :=
  exec_from m 0 input.

End RegExp.

(** The pattern [^<div.*?>(.+)</div>$] *)
Definition outer_div : RegExp.matcher :=
  RegExp.seq RegExp.bol
    (RegExp.seq (RegExp.chars (lit "<div"))
      (RegExp.seq (RegExp.star_lazy RegExp.dot)
        (RegExp.seq (RegExp.chars (lit ">"))
          (RegExp.seq (RegExp.capture1 (RegExp.plus_greedy RegExp.dot))
            (RegExp.seq (RegExp.chars (lit "</div>")) RegExp.eol))))).

(** What follows the lazy star in the pattern: [>(.+)</div>$] *)
Definition after_star : RegExp.matcher :=
  RegExp.seq (RegExp.chars (lit ">"))
    (RegExp.seq (RegExp.capture1 (RegExp.plus_greedy RegExp.dot))
      (RegExp.seq (RegExp.chars (lit "</div>")) RegExp.eol)).

Definition stripOuterDiv (html : value) : value :=
  match RegExp.exec outer_div (to_string html) with
  | Some m =>
    match RegExp.group1 m with
    | Some g => Str g
    | None => Undefined
    end
  | None => html
  end.

(** The strings the pattern accepts: [<div], anything up to a [>], a
    content that is not empty, and [</div>] at the very end, with no line
    terminator in between. *)
Definition wrapped (s : jstr) : Prop :=
  exists a b,
    s = lit "<div" ++ a ++ lit ">" ++ b ++ lit "</div>" /\
    b <> [] /\
    forallb RegExp.dot (a ++ b) = true.

(** ** The CSL engine *)

(** The engine is citeproc-js, which the build script bundles with the
    script; the adapter reaches it through its constructor and four
    methods. It is kept abstract: a type of engine states, the methods as
    functions on it that may throw, and [outputFormat], the output mode the
    engine is in. [makeBibliography] gives [None] for a result that is not
    a pair (the engine answers [false] for a style without bibliography). *)
Definition Id := option Json.

Record Sys := mkSys {
  sys_retrieveItem : Id -> Json;
  sys_retrieveLocale : value -> list jstr * Outcome value
}.

Record Engine := mkEngine {
  state : Type;
  meta : Type;
  construct : Sys -> value -> value -> bool -> Outcome state;
  updateItems : list Id -> state -> Outcome state;
  makeBibliography : state -> Outcome (option (meta * list jstr) * state);
  makeCitationCluster : list Id -> state -> Outcome (jstr * state);
  setOutputFormat : jstr -> state -> Outcome state;
  outputFormat : state -> jstr
}.

(** What the adapter asked of the engine, for the record *)
Inductive Call :=
| UpdateItems (ids : list Id)
| MakeBibliography
| MakeCitationCluster (ids : list Id)
| SetOutputFormat (name : jstr).

(** The construction of the engine, or a method call together with the
    output mode the engine was in when the call was made *)
Inductive Event :=
| Constructed (style lang : value) (forceLang : bool)
| Called (c : Call) (mode : jstr).

(** The render calls for citation clusters in a record of calls *)
Definition cluster_calls (log : list Event) : list (list Id * jstr) :=
  flat_map (fun ev => match ev with
                      | Called (MakeCitationCluster ids) mode => [(ids, mode)]
                      | _ => []
                      end) log.

(** ** [Citer] (lines 122-151) *)

(** [item.id]: reading a property of [null] throws; a value that has no
    such property gives [undefined]; of two fields of the same name
    [JSON.parse] keeps the later one. *)
Fixpoint field (name : jstr) (fields : list (jstr * Json)) : Id :=
  match fields with
  | [] => None
  | (k, v) :: more =>
    match field name more with
    | Some w => Some w
    | None => if eqb k name then Some v else None
    end
  end.

Definition get_id (item : Json) : Outcome Id :=
  match item with
  | JNull => Throw (lit "TypeError")
  | JObject fields => Return (field (lit "id") fields)
  | _ => Return None
  end.

(** Lines 128-134: the locale handed to the engine, and whether it is
    forced. *)
Definition effective_locale (opts : Opts) : value * bool :=
  let locale := Str (lit "en") in
  let force := false in
  if truthy (Cite.locale opts) then (Cite.locale opts, true)
  else (locale, force).

Definition retrieveLocale (pf : Platform) (opts : Opts) (lang : value)
  : list jstr * Outcome value :=
  ((if verbose opts
    then [lit "locale=" ++ to_string lang;
          lit "localeDir=" ++ to_string (localeDir opts)]
    else []),
   readFile pf (Str (to_string (localeDir opts) ++ lit "/locales-"
                     ++ to_string lang ++ lit ".xml"))).

Section Adapter.
Variable pf : Platform.
Variable eng : Engine.

Record Citer := mkCiter {
  c_opts : Opts;
  c_item : Json;
  c_style : value;
  c_id : Id;
  c_citer : state eng
}.

Definition new_Citer (opts : Opts) : Outcome (Citer * list Event) :=
  text <- readFile pf (csl opts) ;;
  item <- parse pf (to_string text) ;;
  style <- readFile pf (Cite.style opts) ;;
  id <- get_id item ;;
  let (locale, force) := effective_locale opts in
  let this := mkSys (fun _ => item) (retrieveLocale pf opts) in
  citer <- construct eng this style locale force ;;
  Return (mkCiter opts item style id citer, [Constructed style locale force]).

(** ** [Citer.prototype.cite] (lines 153-176) *)

Record Data := mkData {
  html : value;
  rtf : value
}.

(** Engine calls thread the engine state and the record of calls. *)
Definition M (A : Type) : Type :=
  state eng * list Event -> Outcome (A * (state eng * list Event)).

Definition ret {A} (a : A) : M A := fun w => Return (a, w).

Definition bindM {A B} (m : M A) (k : A -> M B) : M B := fun w =>
  r <- m w ;; k (fst r) (snd r).

Definition lift {A} (o : Outcome A) : M A := fun w =>
  a <- o ;; Return (a, w).

Definition logged (c : Call) (e e' : state eng) (log : list Event)
  : state eng * list Event :=
  (e', log ++ [Called c (outputFormat eng e)]).

Definition call_updateItems (ids : list Id) : M unit := fun w =>
  e' <- updateItems eng ids (fst w) ;;
  Return (tt, logged (UpdateItems ids) (fst w) e' (snd w)).

Definition call_makeBibliography : M (option (meta eng * list jstr)) :=
  fun w =>
  r <- makeBibliography eng (fst w) ;;
  Return (fst r, logged MakeBibliography (fst w) (snd r) (snd w)).

Definition call_makeCitationCluster (ids : list Id) : M jstr := fun w =>
  r <- makeCitationCluster eng ids (fst w) ;;
  Return (fst r, logged (MakeCitationCluster ids) (fst w) (snd r) (snd w)).

Definition call_setOutputFormat (name : jstr) : M unit := fun w =>
  e' <- setOutputFormat eng name (fst w) ;;
  Return (tt, logged (SetOutputFormat name) (fst w) e' (snd w)).

(** [result[1]]: the entries of a bibliography; [join] on anything else
    throws. *)
Definition entries (r : option (meta eng * list jstr)) : M (list jstr) :=
  match r with
  | Some (_, l) => ret l
  | None => lift (Throw (lit "TypeError"))
  end.

Definition cite (id : Id) (bib : bool) : M Data :=
  let data := mkData (Str []) (Str []) in
  bindM (call_updateItems [id]) (fun _ =>
  if bib then
    bindM call_makeBibliography (fun r =>
    bindM (entries r) (fun l =>
    let html' := Str (trim (join nl l)) in
    let data := mkData (stripOuterDiv html') (rtf data) in
    bindM (call_setOutputFormat (lit "rtf")) (fun _ =>
    bindM call_makeBibliography (fun r =>
    bindM (entries r) (fun l =>
    let data := mkData (html data) (Str (join nl l)) in
    ret data)))))
  else
    bindM (call_makeCitationCluster [id]) (fun h =>
    let data := mkData (Str h) (rtf data) in
    bindM (call_setOutputFormat (lit "rtf")) (fun _ =>
    bindM (call_makeCitationCluster [id]) (fun r =>
    let data := mkData (html data) (Str r) in
    ret data)))).

Definition Citer_cite (this : Citer) (log : list Event)
  : Outcome (Data * (state eng * list Event)) :=
  cite (c_id this) (bibliography (c_opts this)) (c_citer this, log).
End Adapter.

(** ** Reading the argument list from the front *)

(** The loop again, as a recursion on the arguments that are left: a flag
    that takes a value swallows the argument after it, if there is one. *)
Fixpoint walk (l : list jstr) (opts : Opts) (args : list jstr)
  : Outcome (Opts * list jstr) :=
  match l with
  | [] => Return (opts, args)
  | s :: l' =>
    if startsWith s (lit "-") then
      if is_locale s then
        match l' with
        | [] => Return (set_locale opts Undefined, args)
        | v :: l'' => walk l'' (set_locale opts (Str v)) args
        end
      else if is_localeDir s then
        match l' with
        | [] => Return (set_localeDir opts Undefined, args)
        | v :: l'' => walk l'' (set_localeDir opts (Str v)) args
        end
      else if is_bibliography s then walk l' (set_bibliography opts true) args
      else if is_verbose s then walk l' (set_verbose opts true) args
      else showHelp (Str (lit "unknown option: " ++ s))
    else walk l' opts (args ++ [s])
  end.

(** A token that starts with the flag marker and is none of the flags the
    loop knows *)
Definition unknown_flag (s : jstr) : bool :=
  startsWith s (lit "-") && negb (is_locale s) && negb (is_localeDir s)
  && negb (is_bibliography s) && negb (is_verbose s).

(** The process ended on a flag the loop does not know. *)
Definition unknown_exit {A} (argv : list jstr) (o : Outcome A) : Prop :=
  exists t, In t argv /\ unknown_flag t = true /\
            o = Exit 1 [lit "error: unknown option: " ++ t; usage].

Definition takes_value (s : jstr) : bool := is_locale s || is_localeDir s.

(** Does the list end with a flag that takes a value? *)
Definition ends_with_value_flag (pre : list jstr) : bool :=
  match rev pre with
  | t :: _ => takes_value t
  | [] => false
  end.

(** The positional arguments: the tokens that are neither flags nor the
    value of a flag *)
Fixpoint positionals (l : list jstr) : list jstr :=
  match l with
  | [] => []
  | s :: l' =>
    if startsWith s (lit "-") then
      if takes_value s then
        match l' with
        | [] => []
        | _ :: l'' => positionals l''
        end
      else positionals l'
    else s :: positionals l'
  end.

(** ** Stand-ins for the platform and the engine *)

(** A disk without files; [nil_text] is what decoding nil gives. *)
Definition no_files (nil_text : option jstr) : Platform :=
  mkPlatform (fun _ => None)
             (fun d => match d with Some b => Some b | None => nil_text end)
             (fun _ => Throw (lit "SyntaxError")).

(** A disk on which every path holds the same text, which parses to
    [item]. *)
Definition one_file (text : jstr) (item : Json) : Platform :=
  mkPlatform (fun _ => Some text)
             (fun d => match d with Some b => Some b | None => None end)
             (fun _ => Return item).

(** An engine whose whole state is its output mode: a citation cluster
    names the mode it was rendered in, and the bibliography entries are
    [bib] of the mode. *)
Definition mode_engine (bib : jstr -> list jstr) : Engine :=
  mkEngine (state := jstr) (meta := unit)
    (fun _ _ _ _ => Return (lit "html"))
    (fun _ e => Return e)
    (fun e => Return (Some (tt, bib e), e))
    (fun _ e => Return (lit "(Doe, " ++ e ++ lit ")", e))
    (fun name _ => Return name)
    (fun e => e).

Definition sample_bib (mode : jstr) : list jstr :=
  [lit "  <div class='csl-entry'>Doe, J. T. (" ++ mode ++ lit ")</div>" ++ nl].

(** A bibliography of two entries, the second one ending in a newline *)
Definition two_entries (mode : jstr) : list jstr :=
  [lit "  Doe, J. (" ++ mode ++ lit ")"; lit "  Roe, R." ++ nl].

(** ** What the parser stores, and [run] (lines 179-190) *)

(** [opts.style] and [opts.csl] after parsing: the positional argument at
    that place, or the initial [null]. *)
Definition arg_or_null (args : list jstr) (i : nat) : value :=
  match nth_error args i with
  | Some s => Str s
  | None => Null
  end.

(** The flags that take no value *)
Definition is_switch (s : jstr) : bool := is_bibliography s || is_verbose s.

Definition is_positional (s : jstr) : bool := negb (startsWith s (lit "-")).

(** ToString of a boolean *)
Definition bool_string (b : bool) : jstr :=
  if b then lit "true" else lit "false".

(** [run]: what it prints itself, and how it ends. [stringify] is the
    built-in [JSON.stringify] on the result object; the record of engine
    calls is returned alongside. *)
Definition run (pf : Platform) (eng : Engine) (stringify : Data -> jstr)
    (argv : list jstr) : list jstr * Outcome (jstr * list Event) :=
  match parseArgs argv with
  | Return opts =>
    ((if verbose opts
      then [lit "bibliography=" ++ bool_string (bibliography opts);
            lit "csl=" ++ to_string (csl opts);
            lit "style=" ++ to_string (style opts)]
      else []),
     c <- new_Citer pf eng opts ;;
     d <- Citer_cite (fst c) (snd c) ;;
     Return (stringify (fst d), snd (snd d)))
  | Exit st out => ([], Exit st out)
  | Throw e => ([], Throw e)
  end.

(** The render call that [cite] makes in a mode *)
Definition render_call (bib : bool) (id : Id) : Call :=
  if bib then MakeBibliography else MakeCitationCluster [id].

(** [String.prototype.endsWith] *)
Definition endsWith (s suffix : jstr) : bool :=
  startsWith (rev s) (rev suffix).

(** A stand-in for [JSON.stringify]: the two fields, one per line. *)
Definition two_lines (d : Data) : jstr :=
  to_string (html d) ++ nl ++ to_string (rtf d).

End Cite.

Import Cite.

Unset Implicit Arguments.

(** * Properties *)

(** ** Unfolding the loops *)

Section ContainsFacts.
Context {A : Type} (strict_eq : A -> A -> bool) (undef : A).

Lemma contains_loop_eq (this : list A) (val : A) (i : counter) :
  contains_loop strict_eq undef this val i =
  if lt (to_number i) (Num (Z.of_nat (List.length this))) then
    if strict_eq (elem undef this i) val then true
    else contains_loop strict_eq undef this val (incr i)
  else false.
Proof.
  rewrite contains_loop_equation_1. unfold inspect.
  assert (G : forall b (H : lt (to_number i) (Num (Z.of_nat (List.length this))) = b),
    contains_loop_unfold_clause_1 strict_eq undef this val i (exist _ b H) =
    if b then
      if strict_eq (elem undef this i) val then true
      else contains_loop strict_eq undef this val (incr i)
    else false).
  { intros [] H; simp contains_loop;
      rewrite <- ?contains_loop_equation_1; reflexivity. }
  apply G.
Qed.

(** Counting from [k], the loop looks through the elements from the
    [k]-th on. *)
Lemma contains_loop_from (this : list A) (val : A) (n k : nat) :
  List.length this - k <= n ->
  contains_loop strict_eq undef this val (CNum (Num (Z.of_nat k)))
  = existsb (fun x => strict_eq x val) (skipn k this).
Proof.
  revert k. induction n as [|n IH]; intros k Hk; rewrite contains_loop_eq; simpl.
  - destruct (Z.ltb_spec (Z.of_nat k) (Z.of_nat (List.length this))); [lia|].
    rewrite skipn_all2 by lia. reflexivity.
  - destruct (Z.ltb_spec (Z.of_nat k) (Z.of_nat (List.length this))) as [Hlt|Hge].
    + unfold elem, at_counter, incr. simpl.
      destruct (Z.ltb_spec (Z.of_nat k) 0); [lia|].
      rewrite Nat2Z.id.
      destruct (nth_error this k) as [x|] eqn:Hx.
      * apply nth_error_split in Hx. destruct Hx as (l1 & l2 & -> & <-).
        replace (skipn (List.length l1) (l1 ++ x :: l2)) with (x :: l2)
          by (rewrite skipn_app, skipn_all, Nat.sub_diag; reflexivity).
        simpl. destruct (strict_eq x val); [reflexivity|].
        replace (Z.of_nat (List.length l1) + 1)%Z with (Z.of_nat (S (List.length l1))) by lia.
        rewrite IH by (rewrite length_app in *; simpl in *; lia).
        replace (l1 ++ x :: l2) with ((l1 ++ [x]) ++ l2) by (rewrite <- app_assoc; reflexivity).
        rewrite skipn_app.
        replace (S (List.length l1)) with (List.length (l1 ++ [x])) by (rewrite length_app; simpl; lia).
        rewrite skipn_all, Nat.sub_diag. reflexivity.
      * apply nth_error_None in Hx. lia.
    + rewrite skipn_all2 by lia. reflexivity.
Qed.

(** Had the counter started at zero, the helper would be a membership
    test. *)
Lemma contains_from_zero_spec (this : list A) (val : A) :
  contains_from_zero strict_eq undef this val
  = existsb (fun x => strict_eq x val) this.
Proof.
  unfold contains_from_zero.
  change this with (skipn 0 this) at 2. change 0%Z with (Z.of_nat 0).
  apply contains_loop_from with (n := List.length this). lia.
Qed.

(** C9. [Array.prototype.contains] returns false for every array and
    every value: its counter is declared without an initial value, so
    the first test [i < this.length] compares NaN and fails. *)
Theorem contains_always_false (this : list A) (val : A) :
  contains strict_eq undef this val = false.
Proof.
  unfold contains. rewrite contains_loop_eq. reflexivity.
Qed.
End ContainsFacts.

Lemma scan_eq argv i opts args :
  scan argv i opts args =
  match nth_error argv i with
  | None => Return (opts, args)
  | Some s =>
    r <- step argv i s opts args ;;
    let '(j, opts', args') := r in scan argv j opts' args'
  end.
Proof.
  rewrite scan_equation_1. unfold inspect.
  assert (G : forall o (H : nth_error argv i = o),
    scan_unfold_clause_1 argv i (exist _ o H) opts args =
    match o with
    | None => Return (opts, args)
    | Some s =>
      r <- step argv i s opts args ;;
      let '(j, opts', args') := r in scan argv j opts' args'
    end).
  { intros [s|] H; simp scan; [|reflexivity].
    unfold inspect.
    assert (G' : forall r (H' : step argv i s opts args = r),
      @scan_unfold_clause_1_clause_2 argv i s H opts args (exist _ r H') =
      (x <- r ;; let '(j, opts', args') := x in scan argv j opts' args')).
    { intros [[[j o] a]| |] H'; simp scan;
        rewrite <- ?scan_equation_1; reflexivity. }
    apply G'. }
  apply G.
Qed.

Lemma skipn_nth_error {A} (l : list A) i x :
  nth_error l i = Some x -> skipn i l = x :: skipn (S i) l.
Proof.
  revert i; induction l as [|y l IH]; intros [|i] H; simpl in *; try discriminate.
  - congruence.
  - apply IH, H.
Qed.

Lemma skipn_nth_error_None {A} (l : list A) i :
  nth_error l i = None -> skipn i l = [].
Proof.
  intros H. apply skipn_all2, nth_error_None, H.
Qed.

(** The loop on indices and the recursion on the remaining arguments
    agree. *)
Lemma scan_walk_n n : forall argv i opts args,
  List.length argv - i <= n ->
  scan argv i opts args = walk (skipn i argv) opts args.
Proof.
  induction n as [|n IH]; intros argv i opts args Hn; rewrite scan_eq.
  - destruct (nth_error argv i) eqn:Hi.
    + assert (i < List.length argv) by (apply nth_error_Some; congruence). lia.
    + rewrite skipn_nth_error_None by assumption. reflexivity.
  - destruct (nth_error argv i) as [s|] eqn:Hi.
    2:{ rewrite skipn_nth_error_None by assumption. reflexivity. }
    assert (Hlt : i < List.length argv) by (apply nth_error_Some; congruence).
    rewrite (skipn_nth_error _ _ _ Hi). unfold step.
    replace (i + 1) with (S i) by lia. replace (i + 2) with (S (S i)) by lia.
    remember (skipn (S i) argv) as l' eqn:El. simpl walk.
    destruct (startsWith s (lit "-")).
    + destruct (is_locale s); [|destruct (is_localeDir s);
        [|destruct (is_bibliography s); [|destruct (is_verbose s)]]]; simpl.
      * rewrite IH by lia. unfold index. subst l'.
        destruct (nth_error argv (S i)) as [v|] eqn:Hv.
        -- rewrite (skipn_nth_error _ _ _ Hv). reflexivity.
        -- rewrite (skipn_nth_error_None _ _ Hv).
           rewrite skipn_all2 by (apply nth_error_None in Hv; lia). reflexivity.
      * rewrite IH by lia. unfold index. subst l'.
        destruct (nth_error argv (S i)) as [v|] eqn:Hv.
        -- rewrite (skipn_nth_error _ _ _ Hv). reflexivity.
        -- rewrite (skipn_nth_error_None _ _ Hv).
           rewrite skipn_all2 by (apply nth_error_None in Hv; lia). reflexivity.
      * subst l'. apply IH; lia.
      * subst l'. apply IH; lia.
      * reflexivity.
    + simpl. subst l'. apply IH; lia.
Qed.

Lemma scan_walk argv opts args :
  scan argv 0 opts args = walk argv opts args.
Proof.
  change argv with (skipn 0 argv) at 2.
  apply scan_walk_n with (n := List.length argv). lia.
Qed.

(** ** Argument parsing *)

Lemma eqb_eq (s t : jstr) : eqb s t = true <-> s = t.
Proof.
  revert t; induction s as [|c s IH]; intros [|d t]; simpl; split;
    try discriminate; try reflexivity; intros H.
  - apply andb_true_iff in H. destruct H as [H1 H2].
    apply N.eqb_eq in H1. apply IH in H2. congruence.
  - inversion H; subst. rewrite N.eqb_refl. simpl. apply IH. reflexivity.
Qed.

(** The first pass over the arguments ends the process at the first help
    flag. *)
Lemma help_pass (argv : list jstr) :
  forEach argv (fun s => if is_help s then showHelp Undefined else Return tt)
  = if existsb is_help argv then Exit 0 [usage] else Return tt.
Proof.
  induction argv as [|s l IH]; simpl; [reflexivity|].
  destruct (is_help s); simpl; [reflexivity|]. exact IH.
Qed.

Lemma parseArgs_help (argv : list jstr) :
  existsb is_help argv = true -> parseArgs argv = Exit 0 [usage].
Proof.
  intros H. unfold parseArgs. rewrite help_pass, H. reflexivity.
Qed.

Lemma parseArgs_walk (argv : list jstr) :
  existsb is_help argv = false -> argv <> [] ->
  parseArgs argv = (r <- walk argv default_opts [] ;; finish r).
Proof.
  intros H Hne. unfold parseArgs. rewrite help_pass, H. simpl.
  destruct argv as [|s l]; [congruence|]. simpl. rewrite scan_walk. reflexivity.
Qed.

Lemma unknown_exit_cons {A} s l (o : Outcome A) :
  unknown_exit l o -> unknown_exit (s :: l) o.
Proof.
  intros (t & Hin & Hu & ->). exists t. repeat split; auto. now right.
Qed.

Lemma unknown_exit_bind {A B} l (o : Outcome A) (k : A -> Outcome B) :
  unknown_exit l o -> unknown_exit l (bind o k).
Proof.
  intros (t & Hin & Hu & ->). exists t. repeat split; auto.
Qed.

Lemma walk_unknown_here s post opts args :
  unknown_flag s = true ->
  unknown_exit (s :: post) (walk (s :: post) opts args).
Proof.
  intros Hu. exists s. split; [now left|]. split; [assumption|].
  unfold unknown_flag in Hu.
  repeat (apply andb_true_iff in Hu; destruct Hu as [Hu ?]).
  simpl. rewrite Hu.
  repeat match goal with
         | H : negb ?b = true |- _ => apply negb_true_iff in H; rewrite H
         end.
  reflexivity.
Qed.

(** An unknown flag that does not come right after a flag that takes a
    value ends the process with status 1. *)
Lemma walk_unknown n : forall pre s post opts args,
  List.length pre <= n ->
  unknown_flag s = true ->
  ends_with_value_flag pre = false ->
  unknown_exit (pre ++ s :: post) (walk (pre ++ s :: post) opts args).
Proof.
  induction n as [|n IH]; intros pre s post opts args Hn Hu He.
  - destruct pre; [|simpl in Hn; lia]. apply walk_unknown_here, Hu.
  - destruct pre as [|t pre]; [apply walk_unknown_here, Hu|].
    assert (Hrec : forall o a, unknown_exit ((t :: pre) ++ s :: post)
                     (walk (pre ++ s :: post) o a)).
    { intros o a. apply unknown_exit_cons, IH; [simpl in Hn; lia|exact Hu|].
      unfold ends_with_value_flag in *. simpl in He.
      destruct (rev pre) as [|u r]; [reflexivity|exact He]. }
    assert (Hval : takes_value t = true ->
              match pre ++ s :: post with
              | [] => True
              | _ :: l'' => forall o a,
                  unknown_exit ((t :: pre) ++ s :: post) (walk l'' o a)
              end).
    { intros Ht. destruct pre as [|v pre].
      - unfold ends_with_value_flag in He. simpl in He. congruence.
      - simpl. intros o a. do 2 apply unknown_exit_cons.
        apply IH; [simpl in Hn; lia|exact Hu|].
        unfold ends_with_value_flag in *. simpl in He.
        destruct (rev pre) as [|u r]; [reflexivity|]. simpl in He. exact He. }
    simpl app at 2. simpl walk. unfold takes_value in Hval.
    destruct (startsWith t (lit "-")) eqn:Hs; [|apply Hrec].
    destruct (is_locale t) eqn:H1.
    { specialize (Hval eq_refl).
      destruct (pre ++ s :: post) eqn:E; [destruct pre; discriminate|]. apply Hval. }
    destruct (is_localeDir t) eqn:H2.
    { specialize (Hval eq_refl).
      destruct (pre ++ s :: post) eqn:E; [destruct pre; discriminate|]. apply Hval. }
    destruct (is_bibliography t) eqn:H3; [apply Hrec|].
    destruct (is_verbose t) eqn:H4; [apply Hrec|].
    exists t. split; [now left|]. split; [|reflexivity].
    unfold unknown_flag. rewrite Hs, H1, H2, H3, H4. reflexivity.
Qed.

(** Unless it ends on an unknown flag, the loop collects the positional
    arguments. *)
Lemma walk_collects n : forall l opts args,
  List.length l <= n ->
  unknown_exit l (walk l opts args)
  \/ exists o, walk l opts args = Return (o, args ++ positionals l).
Proof.
  induction n as [|n IH]; intros l opts args Hn.
  - destruct l; [|simpl in Hn; lia]. right. exists opts. simpl.
    rewrite app_nil_r. reflexivity.
  - destruct l as [|s l].
    { right. exists opts. simpl. rewrite app_nil_r. reflexivity. }
    assert (Hrec : forall o, unknown_exit (s :: l) (walk l o args)
              \/ exists o', walk l o args = Return (o', args ++ positionals l)).
    { intros o. destruct (IH l o args) as [H|H]; [simpl in Hn; lia| |]; auto.
      left. apply unknown_exit_cons, H. }
    assert (Hval : forall (set : Opts -> value -> Opts),
      let w := match l with
               | [] => Return (set opts Undefined, args)
               | v :: l'' => walk l'' (set opts (Str v)) args
               end in
      unknown_exit (s :: l) w
      \/ exists o', w = Return (o', args ++ match l with
                                           | [] => []
                                           | _ :: l'' => positionals l''
                                           end)).
    { intros set. destruct l as [|v l'']; simpl.
      - right. eexists. rewrite app_nil_r. reflexivity.
      - destruct (IH l'' (set opts (Str v)) args) as [H|H];
          [simpl in Hn; lia| |]; auto.
        left. do 2 apply unknown_exit_cons. exact H. }
    simpl. unfold takes_value.
    destruct (startsWith s (lit "-")) eqn:Hs.
    + destruct (is_locale s) eqn:H1; [apply (Hval set_locale)|].
      destruct (is_localeDir s) eqn:H2; [apply (Hval set_localeDir)|]. simpl.
      destruct (is_bibliography s) eqn:H3; [apply Hrec|].
      destruct (is_verbose s) eqn:H4; [apply Hrec|].
      left. exists s. split; [now left|]. split; [|reflexivity].
      unfold unknown_flag. rewrite Hs, H1, H2, H3, H4. reflexivity.
    + destruct (IH l opts (args ++ [s])) as [H|[o H]]; [simpl in Hn; lia| |].
      * left. apply unknown_exit_cons, H.
      * right. exists o. rewrite H, <- app_assoc. reflexivity.
Qed.

Lemma parseArgs_unknown_flag (argv pre post : list jstr) (s : jstr) :
  existsb is_help argv = false ->
  argv = pre ++ s :: post ->
  unknown_flag s = true ->
  ends_with_value_flag pre = false ->
  unknown_exit argv (parseArgs argv).
Proof.
  intros Hh -> Hu He.
  rewrite parseArgs_walk by (auto; destruct pre; discriminate).
  apply unknown_exit_bind.
  apply walk_unknown with (n := List.length pre); auto.
Qed.

Lemma parseArgs_too_many (argv : list jstr) :
  existsb is_help argv = false ->
  2 < List.length (positionals argv) ->
  unknown_exit argv (parseArgs argv)
  \/ parseArgs argv = Exit 1 [lit "error: script takes 2 arguments"; usage].
Proof.
  intros Hh Hp.
  assert (Hne : argv <> []) by (intros ->; simpl in Hp; lia).
  rewrite parseArgs_walk by assumption.
  destruct (walk_collects (List.length argv) argv default_opts [] (le_n _))
    as [H|[o H]].
  - left. apply unknown_exit_bind, H.
  - right. rewrite H. simpl.
    destruct (Nat.ltb_spec 2 (List.length (positionals argv))); [reflexivity|lia].
Qed.

(** C8, refuted as stated: an unrecognized flag that follows [-l] is taken
    as the locale, and parsing succeeds. *)
Lemma parseArgs_unknown_flag_accepted :
  let argv := words ["-l"; "--bogus"; "a.csl"; "b.json"]%string in
  In (lit "--bogus") argv /\ unknown_flag (lit "--bogus") = true /\
  existsb is_help argv = false /\
  parseArgs argv
  = Return (mkOpts (Str (lit "--bogus")) (Str (lit "./locales"))
              (Str (lit "a.csl")) (Str (lit "b.json")) false false).
Proof.
  repeat split; try reflexivity. right; left; reflexivity.
Qed.

(** C8, amended. A help flag anywhere, or an empty argument list, ends the
    process with the usage text and status 0, whatever the other arguments
    are. Without a help flag, an unrecognized flag that does not directly
    follow a flag that takes a value ends it with an error line, the usage
    text and status 1, and so do more than two positional arguments. *)
Theorem parseArgs_exits (argv : list jstr) :
  (existsb is_help argv = true \/ argv = [] ->
   parseArgs argv = Exit 0 [usage]) /\
  (existsb is_help argv = false ->
   (forall pre s post,
      argv = pre ++ s :: post -> unknown_flag s = true ->
      ends_with_value_flag pre = false ->
      exists t, In t argv /\ unknown_flag t = true /\
        parseArgs argv = Exit 1 [lit "error: unknown option: " ++ t; usage]) /\
   (2 < List.length (positionals argv) ->
      (exists t, In t argv /\ unknown_flag t = true /\
         parseArgs argv = Exit 1 [lit "error: unknown option: " ++ t; usage])
      \/ parseArgs argv
         = Exit 1 [lit "error: script takes 2 arguments"; usage])).
Proof.
  split.
  - intros [H| ->]; [apply parseArgs_help, H|reflexivity].
  - intros Hh. split.
    + intros pre s post E Hu He.
      exact (parseArgs_unknown_flag argv pre post s Hh E Hu He).
    + intros Hp. exact (parseArgs_too_many argv Hh Hp).
Qed.

Lemma parseArgs_exits_witness :
  parseArgs (words ["-h"; "--bogus"]%string) = Exit 0 [usage] /\
  parseArgs [] = Exit 0 [usage] /\
  (exists t, In t (words ["--bogus"; "a.csl"; "b.json"]%string) /\
     unknown_flag t = true /\
     parseArgs (words ["--bogus"; "a.csl"; "b.json"]%string)
     = Exit 1 [lit "error: unknown option: " ++ t; usage]) /\
  ((exists t, In t (words ["a.csl"; "b.json"; "c.json"]%string) /\
      unknown_flag t = true /\
      parseArgs (words ["a.csl"; "b.json"; "c.json"]%string)
      = Exit 1 [lit "error: unknown option: " ++ t; usage])
   \/ parseArgs (words ["a.csl"; "b.json"; "c.json"]%string)
      = Exit 1 [lit "error: script takes 2 arguments"; usage]).
Proof.
  split; [|split; [|split]].
  - apply (proj1 (parseArgs_exits (words ["-h"; "--bogus"]%string))).
    left. reflexivity.
  - apply (proj1 (parseArgs_exits [])). right. reflexivity.
  - apply (proj1 (proj2 (parseArgs_exits (words ["--bogus"; "a.csl"; "b.json"]%string))
                    eq_refl) [] (lit "--bogus") (words ["a.csl"; "b.json"]%string));
      reflexivity.
  - apply (proj2 (proj2 (parseArgs_exits (words ["a.csl"; "b.json"; "c.json"]%string))
                    eq_refl)).
    simpl. lia.
Defined.

(** ** Flags that take a value *)






(** ** Reading files *)

(** C1, refuted as stated: on a disk without files [readFile] returns
    normally ([undefined], or the empty string where decoding nil gives
    one), and [retrieveLocale] hands that value on for a missing locale
    file. *)
Lemma readFile_missing_file_no_error :
  let opts := mkOpts (Str (lit "fr-FR")) (Str (lit "./locales"))
                (Str (lit "a.csl")) (Str (lit "b.json")) false false in
  contentsAtPath (no_files None) (Str (lit "a.csl")) = None /\
  readFile (no_files None) (Str (lit "a.csl")) = Return Undefined /\
  readFile (no_files (Some [])) (Str (lit "a.csl")) = Return (Str []) /\
  contentsAtPath (no_files None) (Str (lit "./locales/locales-fr-FR.xml")) = None /\
  snd (retrieveLocale (no_files None) opts (Str (lit "fr-FR"))) = Return Undefined /\
  snd (retrieveLocale (no_files (Some [])) opts (Str (lit "fr-FR"))) = Return (Str []).
Proof.
  repeat split.
Qed.

(** C1, amended. [readFile] raises no error of its own: for every path it
    returns, as an ordinary value, what the decoding of the contents found
    at that path unwraps to. The text of a file that is there comes back
    as a string; for a path that names no readable file the result is the
    unwrapped decoding of nil, an absent or empty text, not an error.
    [retrieveLocale] returns just that for the path of the locale file. *)
Theorem readFile_returns_normally (pf : Platform) (path : value) :
  readFile pf path
  = Return (unwrap (initWithDataEncoding pf (contentsAtPath pf path))) /\
  (forall bytes s,
     contentsAtPath pf path = Some bytes ->
     initWithDataEncoding pf (Some bytes) = Some s ->
     readFile pf path = Return (Str s)) /\
  (contentsAtPath pf path = None ->
     readFile pf path = Return (unwrap (initWithDataEncoding pf None))) /\
  (forall opts lang,
     snd (retrieveLocale pf opts lang)
     = Return (unwrap (initWithDataEncoding pf
                 (contentsAtPath pf
                    (Str (to_string (localeDir opts) ++ lit "/locales-"
                          ++ to_string lang ++ lit ".xml")))))).
Proof.
  split; [reflexivity|]. split; [|split].
  - intros bytes s Hc Hd. unfold readFile. rewrite Hc, Hd. reflexivity.
  - intros H. unfold readFile. rewrite H. reflexivity.
  - intros opts lang. reflexivity.
Qed.

Lemma readFile_returns_normally_witness :
  readFile (one_file (lit "<style/>") JNull) (Str (lit "a.csl"))
  = Return (Str (lit "<style/>"))
  /\ readFile (no_files None) (Str (lit "missing.csl")) = Return Undefined
  /\ readFile (no_files (Some [])) (Str (lit "missing.csl")) = Return (Str []).
Proof.
  split; [|split].
  - exact (proj1 (proj2 (readFile_returns_normally
                           (one_file (lit "<style/>") JNull) (Str (lit "a.csl"))))
             (lit "<style/>") (lit "<style/>") eq_refl eq_refl).
  - exact (proj1 (proj2 (proj2 (readFile_returns_normally (no_files None)
                                  (Str (lit "missing.csl"))))) eq_refl).
  - exact (proj1 (proj2 (proj2 (readFile_returns_normally (no_files (Some []))
                                  (Str (lit "missing.csl"))))) eq_refl).
Defined.

(** ** Constructing the adapter *)

Lemma new_Citer_log (pf : Platform) (eng : Engine) (opts : Opts) c log :
  new_Citer pf eng opts = Return (c, log) ->
  log = [Constructed (c_style c) (fst (effective_locale opts))
                     (snd (effective_locale opts))].
Proof.
  unfold new_Citer, readFile. simpl.
  destruct (parse pf _) as [item| |]; simpl; try discriminate.
  destruct (get_id item) as [id| |]; simpl; try discriminate.
  destruct (effective_locale opts) as [l f]. simpl.
  destruct (construct eng _ _ l f) as [e| |]; simpl; try discriminate.
  intros H. inversion H; subst. reflexivity.
Qed.

(** C7, refuted as stated: [-l] with an empty value sets the locale to
    the empty string, and the engine is given "en", unforced. *)
Lemma empty_locale_not_forced :
  let argv := [lit "-l"; []; lit "a.csl"; lit "b.json"] in
  let opts := mkOpts (Str []) (Str (lit "./locales"))
                (Str (lit "a.csl")) (Str (lit "b.json")) false false in
  parseArgs argv = Return opts /\
  locale opts = Str [] /\
  effective_locale opts = (Str (lit "en"), false) /\
  exists c,
    new_Citer (one_file (lit "{}") (JObject [])) (mode_engine sample_bib) opts
    = Return (c, [Constructed (Str (lit "{}")) (Str (lit "en")) false]).
Proof.
  repeat split. eexists. reflexivity.
Qed.

(** C7, amended. The engine is constructed with the configured locale,
    forced, whenever the configured locale is a non-empty string, and with
    "en", unforced, whenever it is null, undefined or the empty string. *)
Theorem locale_passed_to_engine (pf : Platform) (eng : Engine) (opts : Opts) :
  (forall u s, locale opts = Str (u :: s) ->
     effective_locale opts = (Str (u :: s), true)) /\
  (locale opts = Null \/ locale opts = Undefined \/ locale opts = Str [] ->
     effective_locale opts = (Str (lit "en"), false)) /\
  (forall c log, new_Citer pf eng opts = Return (c, log) ->
     log = [Constructed (c_style c) (fst (effective_locale opts))
                        (snd (effective_locale opts))]) /\
  (forall text item id style e,
     readFile pf (csl opts) = Return text ->
     parse pf (to_string text) = Return item ->
     readFile pf (Cite.style opts) = Return style ->
     get_id item = Return id ->
     construct eng (mkSys (fun _ => item) (retrieveLocale pf opts)) style
       (fst (effective_locale opts)) (snd (effective_locale opts)) = Return e ->
     new_Citer pf eng opts
     = Return (mkCiter eng opts item style id e,
               [Constructed style (fst (effective_locale opts))
                            (snd (effective_locale opts))])).
Proof.
  split; [|split; [|split]].
  - intros u s H. unfold effective_locale. rewrite H. reflexivity.
  - intros [H|[H|H]]; unfold effective_locale; rewrite H; reflexivity.
  - intros c log. apply new_Citer_log.
  - intros text item id style e H1 H2 H3 H4 H5.
    unfold new_Citer. rewrite H1. cbn [bind]. rewrite H2. cbn [bind].
    rewrite H3. cbn [bind]. rewrite H4. cbn [bind].
    destruct (effective_locale opts) as [l f]. cbn [fst snd] in *.
    rewrite H5. reflexivity.
Qed.

Lemma locale_passed_to_engine_witness :
  let opts := mkOpts (Str (lit "fr-FR")) (Str (lit "./locales"))
                (Str (lit "a.csl")) (Str (lit "b.json")) false false in
  parseArgs (words ["-l"; "fr-FR"; "a.csl"; "b.json"]%string) = Return opts /\
  effective_locale opts = (Str (lit "fr-FR"), true) /\
  effective_locale default_opts = (Str (lit "en"), false) /\
  exists c,
    new_Citer (one_file (lit "{}") (JObject [])) (mode_engine sample_bib) opts
    = Return (c, [Constructed (Str (lit "{}")) (Str (lit "fr-FR")) true]).
Proof.
  intros opts.
  pose proof (locale_passed_to_engine (one_file (lit "{}") (JObject []))
                (mode_engine sample_bib) opts) as (H1 & _ & _ & H4).
  pose proof (locale_passed_to_engine (one_file (lit "{}") (JObject []))
                (mode_engine sample_bib) default_opts) as (_ & H2 & _).
  split; [reflexivity|]. split; [exact (H1 _ _ eq_refl)|].
  split; [exact (H2 (or_introl eq_refl))|].
  eexists.
  exact (H4 (Str (lit "{}")) (JObject []) None (Str (lit "{}")) (lit "html")
            eq_refl eq_refl eq_refl eq_refl eq_refl).
Defined.

(** ** The matchers *)

Section Matchers.
Import RegExp.

Lemma chars_app (cs r : jstr) i g (k : cont) :
  chars cs (mkState i (cs ++ r) g) k = k (mkState (i + List.length cs) r g).
Proof.
  revert i; induction cs as [|c cs IH]; intros i; simpl.
  - unfold empty. rewrite Nat.add_0_r. reflexivity.
  - unfold seq, char, class. simpl. rewrite N.eqb_refl, IH.
    f_equal. f_equal. lia.
Qed.

Lemma chars_some (cs : jstr) x (k : cont) y :
  chars cs x k = Some y ->
  exists r, rest x = cs ++ r /\
    k (mkState (pos x + List.length cs) r (group1 x)) = Some y.
Proof.
  revert x; induction cs as [|c cs IH]; intros [i r g]; simpl.
  - unfold empty. intros H. exists r. rewrite Nat.add_0_r. auto.
  - unfold seq, char, class. simpl.
    destruct r as [|d r]; [discriminate|].
    destruct (N.eqb_spec c d) as [->|]; [|discriminate].
    intros H. apply IH in H. simpl in H. destruct H as (r' & -> & H).
    exists r'. split; [reflexivity|].
    rewrite <- H. f_equal. f_equal. lia.
Qed.

(** A lazy star succeeds only through its continuation, after a run of
    characters of the class. *)
Lemma lazy_star_some p i r g (k : cont) y :
  lazy_star p i r g k = Some y ->
  exists a w, r = a ++ w /\ forallb p a = true /\
    k (mkState (i + List.length a) w g) = Some y.
Proof.
  revert i; induction r as [|c r IH]; intros i; simpl.
  - destruct (k (mkState i [] g)) eqn:E; [|discriminate].
    intros H; inversion H; subst. exists [], []. simpl.
    rewrite Nat.add_0_r. auto.
  - destruct (k (mkState i (c :: r) g)) eqn:E.
    + intros H; inversion H; subst. exists [], (c :: r). simpl.
      rewrite Nat.add_0_r. auto.
    + destruct (p c) eqn:Hp; [|discriminate].
      intros H. apply IH in H. destruct H as (a & w & -> & Ha & H).
      exists (c :: a), w. simpl. rewrite Hp, Ha.
      repeat split. rewrite <- H. f_equal. f_equal. lia.
Qed.

(** It fails only if the continuation fails after every such run. *)
Lemma lazy_star_none p i r g (k : cont) :
  lazy_star p i r g k = None ->
  forall a w, r = a ++ w -> forallb p a = true ->
    k (mkState (i + List.length a) w g) = None.
Proof.
  revert i; induction r as [|c r IH]; intros i; simpl.
  - destruct (k (mkState i [] g)) eqn:E; [discriminate|].
    intros _ a w Haw _. symmetry in Haw. apply app_eq_nil in Haw.
    destruct Haw; subst. simpl. rewrite Nat.add_0_r. exact E.
  - destruct (k (mkState i (c :: r) g)) eqn:E; [discriminate|].
    intros H [|d a] w Haw Ha; simpl in *.
    + subst w. rewrite Nat.add_0_r. exact E.
    + inversion Haw; subst. apply andb_true_iff in Ha. destruct Ha as [Hp Ha].
      rewrite Hp in H.
      replace (i + S (List.length a)) with (S i + List.length a) by lia.
      apply (IH (S i) H a w eq_refl Ha).
Qed.

(** It takes the shortest run after which the continuation succeeds. *)
Lemma lazy_star_first p i a w g (k : cont) y :
  forallb p a = true ->
  k (mkState (i + List.length a) w g) = Some y ->
  (forall a1 c a2, a = a1 ++ c :: a2 ->
     k (mkState (i + List.length a1) (c :: a2 ++ w) g) = None) ->
  lazy_star p i (a ++ w) g k = Some y.
Proof.
  revert i; induction a as [|c a IH]; intros i Ha Hk Hmin; simpl in *.
  - rewrite Nat.add_0_r in Hk.
    destruct w; simpl; rewrite Hk; reflexivity.
  - apply andb_true_iff in Ha. destruct Ha as [Hp Ha].
    pose proof (Hmin [] c a eq_refl) as H0. simpl in H0.
    rewrite Nat.add_0_r in H0. rewrite H0, Hp.
    apply IH; auto.
    + rewrite <- Hk. f_equal. f_equal. lia.
    + intros a1 d a2 E. specialize (Hmin (c :: a1) d a2).
      simpl in Hmin. rewrite <- Hmin by (f_equal; exact E).
      f_equal. f_equal. lia.
Qed.

Lemma greedy_star_some p i r g (k : cont) y :
  greedy_star p i r g k = Some y ->
  exists u w, r = u ++ w /\ forallb p u = true /\
    k (mkState (i + List.length u) w g) = Some y.
Proof.
  revert i; induction r as [|c r IH]; intros i; simpl.
  - intros H. exists [], []. simpl. rewrite Nat.add_0_r. auto.
  - assert (Hhere : k (mkState i (c :: r) g) = Some y ->
      exists u w, c :: r = u ++ w /\ forallb p u = true /\
        k (mkState (i + List.length u) w g) = Some y).
    { intros H. exists [], (c :: r). simpl. rewrite Nat.add_0_r. auto. }
    destruct (p c) eqn:Hp; [|exact Hhere].
    destruct (greedy_star p (S i) r g k) eqn:E; [|exact Hhere].
    intros H; inversion H; subst.
    apply IH in E. destruct E as (u & w & -> & Hu & E).
    exists (c :: u), w. simpl. rewrite Hp, Hu. repeat split.
    rewrite <- E. f_equal. f_equal. lia.
Qed.

(** A greedy star takes the longest run after which the continuation
    succeeds. *)
Lemma greedy_star_last p i u w g (k : cont) y :
  forallb p u = true ->
  k (mkState (i + List.length u) w g) = Some y ->
  (forall u' w', w = u' ++ w' -> u' <> [] ->
     k (mkState (i + List.length u + List.length u') w' g) = None) ->
  greedy_star p i (u ++ w) g k = Some y.
Proof.
  revert i; induction u as [|c u IH]; intros i Hu Hk Hmax; simpl in *.
  - rewrite Nat.add_0_r in *.
    assert (G : forall j v, (forall u' w', v = u' ++ w' -> u' <> [] ->
                 k (mkState (j + List.length u') w' g) = None) ->
               greedy_star p j v g k = k (mkState j v g)).
    { intros j v; revert j; induction v as [|d v IHv]; intros j Hv; simpl;
        [reflexivity|].
      destruct (p d); [|reflexivity].
      rewrite IHv.
      - pose proof (Hv [d] v eq_refl ltac:(discriminate)) as H1. simpl in H1.
        replace (j + 1) with (S j) in H1 by lia. rewrite H1. reflexivity.
      - intros u' w' E Hne. specialize (Hv (d :: u') w').
        simpl in Hv. rewrite <- Hv; [|f_equal; exact E|discriminate].
        f_equal. f_equal. lia. }
    rewrite G; [exact Hk|exact Hmax].
  - apply andb_true_iff in Hu. destruct Hu as [Hp Hu]. rewrite Hp.
    rewrite (IH (S i) Hu); [reflexivity| |].
    + rewrite <- Hk. f_equal. f_equal. lia.
    + intros u' w' E Hne. rewrite <- (Hmax u' w' E Hne).
      f_equal. f_equal. lia.
Qed.

(** With [^] in front, only index 0 can match. *)
Lemma exec_bol (m : matcher) (s : jstr) :
  exec (seq bol m) s = m (mkState 0 s None) (fun y => Some y).
Proof.
  assert (G : forall r i, exec_from (seq bol m) (S i) r = None).
  { induction r as [|c r IH]; intros i; simpl; [reflexivity|].
    unfold seq at 1, bol at 1. simpl. apply IH. }
  unfold exec. destruct s as [|c s]; simpl.
  - unfold seq at 1, bol at 1. simpl.
    destruct (m _ _); reflexivity.
  - unfold seq at 1, bol at 1. simpl.
    destruct (m _ _); [reflexivity|]. unfold seq at 1, bol at 1. simpl. apply G.
Qed.
End Matchers.

(** ** The pattern of [stripOuterDiv] *)

Section OuterDiv.
Import RegExp.

Lemma chars_short (cs r : jstr) i g (k : cont) :
  List.length r < List.length cs -> chars cs (mkState i r g) k = None.
Proof.
  intros H. destruct (chars cs (mkState i r g) k) eqn:E; [|reflexivity].
  apply chars_some in E. simpl in E. destruct E as (r' & -> & _).
  rewrite length_app in H. lia.
Qed.

#[local] Arguments chars : simpl never.
#[local] Arguments lit : simpl never.

Ltac lengths :=
  unfold lit; simpl; rewrite ?length_app; simpl; rewrite ?length_app; simpl;
  try lia.

Lemma firstn_content (i n : nat) (c : N) (u w : jstr) :
  n = List.length u ->
  firstn (S (i + n) - i) (c :: u ++ w) = c :: u.
Proof.
  intros ->. replace (S (i + List.length u) - i) with (S (List.length u)) by lia.
  simpl. f_equal. rewrite firstn_app, firstn_all, Nat.sub_diag. simpl.
  apply app_nil_r.
Qed.

(** [(.+)] takes a first character and a further run, and records
    both. *)
Lemma capture_plus_eq i c w g (k : cont) :
  capture1 (plus_greedy dot) (mkState i (c :: w) g) k =
  if dot c then
    greedy_star dot (S i) w g
      (fun y => k (mkState (pos y) (rest y)
                     (Some (firstn (pos y - i) (c :: w)))))
  else None.
Proof. reflexivity. Qed.

Lemma capture_plus_some i w g (k : cont) y :
  capture1 (plus_greedy dot) (mkState i w g) k = Some y ->
  exists c u w', w = c :: u ++ w' /\ dot c = true /\ forallb dot u = true /\
    k (mkState (S (i + List.length u)) w' (Some (c :: u))) = Some y.
Proof.
  destruct w as [|c w]; [discriminate|]. rewrite capture_plus_eq.
  destruct (dot c) eqn:Hc; [|discriminate]. intros H.
  apply greedy_star_some in H. destruct H as (u & w' & -> & Hu & H).
  simpl in H. exists c, u, w'. repeat split; auto.
  rewrite <- H. f_equal. f_equal. f_equal.
  symmetry. apply firstn_content. reflexivity.
Qed.

Lemma capture_plus_last i c u w g (k : cont) y :
  dot c = true -> forallb dot u = true ->
  k (mkState (S (i + List.length u)) w (Some (c :: u))) = Some y ->
  (forall u' w' g', w = u' ++ w' -> u' <> [] ->
     k (mkState (S (i + List.length u) + List.length u') w' g') = None) ->
  capture1 (plus_greedy dot) (mkState i (c :: u ++ w) g) k = Some y.
Proof.
  intros Hc Hu Hk Hmax. rewrite capture_plus_eq, Hc.
  apply greedy_star_last; [exact Hu| |].
  - simpl. rewrite <- Hk. f_equal. f_equal. f_equal.
    apply firstn_content. reflexivity.
  - intros u' w' E Hne. simpl. apply Hmax; assumption.
Qed.

Lemma after_star_eq x (k : cont) :
  after_star x k =
  chars (lit ">") x (fun y =>
    capture1 (plus_greedy dot) y (fun z =>
      chars (lit "</div>") z (fun z' => eol z' k))).
Proof. reflexivity. Qed.

Lemma after_star_some i w g y :
  after_star (mkState i w g) (fun y => Some y) = Some y ->
  exists b, w = lit ">" ++ b ++ lit "</div>" /\ b <> [] /\
    forallb dot b = true /\ y = mkState (i + List.length w) [] (Some b).
Proof.
  rewrite after_star_eq. intros H.
  apply chars_some in H. simpl in H. destruct H as (w2 & -> & H).
  apply capture_plus_some in H.
  destruct H as (c & u & w4 & -> & Hc & Hu & H).
  apply chars_some in H. simpl in H.
  destruct H as (w5 & -> & H). unfold eol in H. simpl in H.
  destruct w5; [|discriminate]. inversion H; subst; clear H.
  exists (c :: u). simpl. rewrite Hc, Hu. repeat split; [discriminate|].
  f_equal. lengths.
Qed.

Lemma after_star_match i b g :
  b <> [] -> forallb dot b = true ->
  after_star (mkState i (lit ">" ++ b ++ lit "</div>") g) (fun y => Some y)
  = Some (mkState (i + List.length (lit ">" ++ b ++ lit "</div>")) [] (Some b)).
Proof.
  intros Hne Hb. destruct b as [|c u]; [congruence|].
  simpl in Hb. apply andb_true_iff in Hb. destruct Hb as [Hc Hu].
  rewrite after_star_eq, chars_app.
  change ((c :: u) ++ lit "</div>") with (c :: u ++ lit "</div>").
  apply capture_plus_last; [exact Hc|exact Hu| |].
  - cbv beta. rewrite <- (app_nil_r (lit "</div>")) at 2. rewrite chars_app.
    unfold eol. simpl. f_equal. f_equal. lengths.
  - intros u' w' g' E Hne'. apply chars_short.
    apply (f_equal (@List.length N)) in E. rewrite length_app in E.
    destruct u'; [congruence|]. unfold lit in *. simpl in *. lia.
Qed.

Lemma after_star_wrong_start i c r g :
  c <> 62%N -> after_star (mkState i (c :: r) g) (fun y => Some y) = None.
Proof.
  intros Hc. rewrite after_star_eq.
  destruct (chars _ _ _) eqn:E; [|reflexivity].
  apply chars_some in E. destruct E as (r' & E & _).
  unfold lit in E. simpl in E. congruence.
Qed.

Lemma exec_outer_div (s : jstr) :
  exec outer_div s =
  chars (lit "<div") (mkState 0 s None)
    (fun x => star_lazy dot x (fun y => after_star y (fun z => Some z))).
Proof.
  unfold outer_div. rewrite exec_bol. reflexivity.
Qed.

(** A match is a decomposition of the input, and group 1 is its
    content. *)
Lemma exec_outer_div_some (s : jstr) y :
  exec outer_div s = Some y ->
  exists a b, s = lit "<div" ++ a ++ lit ">" ++ b ++ lit "</div>" /\
    b <> [] /\ forallb dot a = true /\ forallb dot b = true /\
    y = mkState (List.length s) [] (Some b).
Proof.
  rewrite exec_outer_div. intros H.
  apply chars_some in H. simpl in H. destruct H as (r & -> & H).
  unfold star_lazy in H. simpl in H.
  apply lazy_star_some in H. destruct H as (a & w & -> & Ha & H).
  apply after_star_some in H. destruct H as (b & -> & Hne & Hb & ->).
  exists a, b. repeat split; auto.
  f_equal. lengths.
Qed.

(** The opening tag ends at the first [>]. *)
Lemma exec_outer_div_match (a b : jstr) :
  forallb dot a = true -> (forall c, In c a -> c <> 62%N) ->
  b <> [] -> forallb dot b = true ->
  exec outer_div (lit "<div" ++ a ++ lit ">" ++ b ++ lit "</div>")
  = Some (mkState
            (List.length (lit "<div" ++ a ++ lit ">" ++ b ++ lit "</div>"))
            [] (Some b)).
Proof.
  intros Ha Hgt Hne Hb. rewrite exec_outer_div, chars_app.
  unfold star_lazy. simpl rest. simpl pos. simpl group1.
  apply lazy_star_first; [exact Ha| |].
  - change (62%N :: b ++ lit "</div>") with (lit ">" ++ b ++ lit "</div>").
    rewrite after_star_match by assumption. f_equal. f_equal. lengths.
  - intros a1 c a2 E. apply after_star_wrong_start.
    apply Hgt. rewrite E. apply in_elt.
Qed.

Lemma exec_outer_div_wrapped (s : jstr) :
  wrapped s -> exists y, exec outer_div s = Some y.
Proof.
  intros (a & b & -> & Hne & Hab).
  rewrite forallb_app in Hab. apply andb_true_iff in Hab. destruct Hab as [Ha Hb].
  destruct (exec outer_div _) as [y|] eqn:E; [eauto|].
  rewrite exec_outer_div, chars_app in E.
  unfold star_lazy in E. simpl in E.
  pose proof (lazy_star_none _ _ _ _ _ E a _ eq_refl Ha) as H.
  cbv beta in H.
  change (after_star (mkState (4 + List.length a) (lit ">" ++ b ++ lit "</div>") None)
            (fun y => Some y) = None) in H.
  rewrite after_star_match in H by assumption. discriminate.
Qed.
End OuterDiv.

(** ** [stripOuterDiv] *)

Lemma strip_unwrapped (s : jstr) :
  ~ wrapped s -> stripOuterDiv (Str s) = Str s.
Proof.
  intros Hw. unfold stripOuterDiv. simpl.
  destruct (RegExp.exec outer_div s) as [y|] eqn:E; [|reflexivity].
  exfalso. apply Hw. apply exec_outer_div_some in E.
  destruct E as (a & b & -> & Hne & Ha & Hb & _).
  exists a, b. rewrite forallb_app, Ha, Hb. auto.
Qed.

Lemma strip_wrapped (s : jstr) :
  wrapped s ->
  exists a b, s = lit "<div" ++ a ++ lit ">" ++ b ++ lit "</div>" /\
    b <> [] /\ stripOuterDiv (Str s) = Str b.
Proof.
  intros Hw. destruct (exec_outer_div_wrapped s Hw) as [y E].
  unfold stripOuterDiv. simpl. rewrite E.
  apply exec_outer_div_some in E.
  destruct E as (a & b & Hs & Hne & Ha & Hb & ->). simpl.
  exists a, b. auto.
Qed.

Lemma strip_content (a b : jstr) :
  forallb RegExp.dot a = true -> (forall c, In c a -> c <> 62%N) ->
  b <> [] -> forallb RegExp.dot b = true ->
  stripOuterDiv (Str (lit "<div" ++ a ++ lit ">" ++ b ++ lit "</div>")) = Str b.
Proof.
  intros Ha Hgt Hne Hb. unfold stripOuterDiv.
  change (to_string (Str ?x)) with x.
  rewrite exec_outer_div_match by assumption. reflexivity.
Qed.

Lemma strip_is_string (s : jstr) : exists t, stripOuterDiv (Str s) = Str t.
Proof.
  unfold stripOuterDiv. simpl.
  destruct (RegExp.exec outer_div s) as [y|] eqn:E; [|eauto].
  apply exec_outer_div_some in E.
  destruct E as (a & b & _ & _ & _ & _ & ->). simpl. eauto.
Qed.

Lemma strip_fixed_iff (s : jstr) :
  stripOuterDiv (Str s) = Str s <-> ~ wrapped s.
Proof.
  split; [|apply strip_unwrapped].
  intros H Hw. destruct (strip_wrapped s Hw) as (a & b & Hs & _ & Hb).
  rewrite Hb in H. inversion H as [E].
  apply (f_equal (@List.length N)) in Hs. rewrite E in Hs.
  rewrite !length_app in Hs. simpl in Hs. lia.
Qed.

Lemma not_wrapped_prefix (s : jstr) :
  startsWith s (lit "<div") = false -> ~ wrapped s.
Proof.
  intros H (a & b & -> & _). vm_compute in H. discriminate H.
Qed.

(** C2, refuted as stated: two sibling wrappers in a row match the
    pattern as a whole and lose the first opening and the last closing
    tag. *)
Lemma stripOuterDiv_changes_siblings :
  let s := lit "<div>a</div>" ++ lit "<div>b</div>" in
  stripOuterDiv (Str s) = Str (lit "a</div><div>b") /\
  stripOuterDiv (Str s) <> Str s.
Proof.
  split; [reflexivity|]. vm_compute. discriminate.
Qed.

(** C2, amended. [stripOuterDiv] returns its input unchanged exactly when
    the input is not of the shape [<div], anything, [>], a non-empty
    content, [</div>] on a single line; in particular a string that does
    not start with [<div] (no wrapper at all) is returned unchanged. *)
Theorem stripOuterDiv_unchanged (s : jstr) :
  (~ wrapped s -> stripOuterDiv (Str s) = Str s) /\
  (stripOuterDiv (Str s) = Str s -> ~ wrapped s) /\
  (startsWith s (lit "<div") = false -> stripOuterDiv (Str s) = Str s).
Proof.
  split; [apply strip_unwrapped|]. split; [apply strip_fixed_iff|].
  intros H. apply strip_unwrapped, not_wrapped_prefix, H.
Qed.

Lemma stripOuterDiv_unchanged_witness :
  stripOuterDiv (Str (lit "Doe, J. T. (2020).")) = Str (lit "Doe, J. T. (2020).")
  /\ stripOuterDiv (Str (lit "<p>Doe, J. T.</p>")) = Str (lit "<p>Doe, J. T.</p>")
  /\ ~ wrapped (lit "<div></div>").
Proof.
  split; [|split].
  - apply (proj2 (proj2 (stripOuterDiv_unchanged (lit "Doe, J. T. (2020).")))).
    reflexivity.
  - apply (proj1 (stripOuterDiv_unchanged (lit "<p>Doe, J. T.</p>"))).
    apply not_wrapped_prefix. reflexivity.
  - apply (proj1 (proj2 (stripOuterDiv_unchanged (lit "<div></div>")))).
    reflexivity.
Defined.

(** C4, refuted as stated: on nested wrappers each application strips one
    level. *)
Lemma stripOuterDiv_not_idempotent :
  let s := Str (lit "<div><div>x</div></div>") in
  stripOuterDiv s = Str (lit "<div>x</div>") /\
  stripOuterDiv (stripOuterDiv s) = Str (lit "x") /\
  stripOuterDiv (stripOuterDiv s) <> stripOuterDiv s.
Proof.
  split; [reflexivity|]. split; [reflexivity|]. vm_compute. discriminate.
Qed.

(** C4, amended. [stripOuterDiv] always gives a string, and applying it
    twice equals applying it once exactly when the result of the first
    application is not itself of the shape the pattern accepts; a string
    that is not of that shape is left as it is by any number of
    applications. *)
Theorem stripOuterDiv_twice (s t : jstr) :
  stripOuterDiv (Str s) = Str t ->
  (stripOuterDiv (stripOuterDiv (Str s)) = stripOuterDiv (Str s) <-> ~ wrapped t)
  /\ (~ wrapped s ->
      t = s /\ stripOuterDiv (stripOuterDiv (Str s)) = Str s).
Proof.
  intros H. split.
  - rewrite H. apply strip_fixed_iff.
  - intros Hs. pose proof (strip_unwrapped s Hs) as E.
    rewrite E in H. inversion H; subst. split; [reflexivity|].
    rewrite E. exact E.
Qed.

Lemma stripOuterDiv_twice_witness :
  stripOuterDiv (stripOuterDiv (Str (lit "<div>Doe, J.</div>")))
  = stripOuterDiv (Str (lit "<div>Doe, J.</div>")).
Proof.
  apply (proj1 (stripOuterDiv_twice (lit "<div>Doe, J.</div>") (lit "Doe, J.")
                  eq_refl)).
  apply not_wrapped_prefix. reflexivity.
Defined.

(** ** [trim] *)

Lemma trimStart_spec (s : jstr) :
  exists l, s = l ++ trimStart s /\ forallb is_trimmed l = true /\
    (forall c r, trimStart s = c :: r -> is_trimmed c = false).
Proof.
  induction s as [|c s (l & E & Hl & Hh)]; simpl.
  - exists []. repeat split. discriminate.
  - destruct (is_trimmed c) eqn:Hc.
    + exists (c :: l). simpl. rewrite Hc, Hl. repeat split; auto.
      f_equal. exact E.
    + exists []. repeat split. intros d r H. inversion H; subst. exact Hc.
Qed.

Lemma trimEnd_spec (s : jstr) :
  exists r, s = trimEnd s ++ r /\ forallb is_trimmed r = true /\
    (forall t c, trimEnd s = t ++ [c] -> is_trimmed c = false).
Proof.
  unfold trimEnd. destruct (trimStart_spec (rev s)) as (l & E & Hl & Hh).
  exists (rev l). repeat split.
  - rewrite <- rev_app_distr, <- E, rev_involutive. reflexivity.
  - rewrite forallb_forall in *. intros x Hx. apply Hl, in_rev, Hx.
  - intros t c H. apply (f_equal (@rev N)) in H.
    rewrite rev_involutive, rev_app_distr in H. simpl in H.
    apply (Hh _ _ H).
Qed.

(** [trim] removes a run of white space and line terminators at either
    end, and what is left neither starts nor ends with one. *)
Lemma trim_spec (s : jstr) :
  exists l r, s = l ++ trim s ++ r /\
    forallb is_trimmed l = true /\ forallb is_trimmed r = true /\
    (forall c t, trim s = c :: t -> is_trimmed c = false) /\
    (forall t c, trim s = t ++ [c] -> is_trimmed c = false).
Proof.
  unfold trim.
  destruct (trimStart_spec s) as (l & E & Hl & Hh).
  destruct (trimEnd_spec (trimStart s)) as (r & E' & Hr & Ht).
  exists l, r. repeat split; auto.
  - rewrite <- E'. exact E.
  - intros c t H. rewrite H in E'. simpl in E'. apply (Hh c (t ++ r)).
    exact E'.
Qed.

Lemma trim_length (s : jstr) : List.length (trim s) <= List.length s.
Proof.
  destruct (trim_spec s) as (l & r & E & _).
  apply (f_equal (@List.length N)) in E. rewrite !length_app in E. lia.
Qed.

(** ** [join] *)


(** ** Rendering *)

Section Render.
Variable eng : Engine.
Variables (id : Id) (log : list Event).
Variables e0 e1 e2 e3 e4 : state eng.

Hypothesis Hupdate : updateItems eng [id] e0 = Return e1.
Hypothesis Hswitch : setOutputFormat eng (lit "rtf") e2 = Return e3.

(** The run of [cite] in bibliography mode against an engine that
    answers every call. *)
Lemma cite_bibliography_run (m1 m2 : meta eng) (l1 l2 : list jstr) :
  makeBibliography eng e1 = Return (Some (m1, l1), e2) ->
  makeBibliography eng e3 = Return (Some (m2, l2), e4) ->
  cite eng id true (e0, log)
  = Return (mkData (stripOuterDiv (Str (trim (join nl l1))))
                       (Str (join nl l2)),
            (e4, log ++ [Called (UpdateItems [id]) (outputFormat eng e0);
                         Called MakeBibliography (outputFormat eng e1);
                         Called (SetOutputFormat (lit "rtf")) (outputFormat eng e2);
                         Called MakeBibliography (outputFormat eng e3)])).
Proof.
  intros H1 H2.
  unfold cite, bindM, call_updateItems, call_makeBibliography,
    call_setOutputFormat, entries, ret, logged.
  cbn [fst snd]. rewrite Hupdate. cbn [bind fst snd].
  rewrite H1. cbn [bind fst snd]. rewrite Hswitch. cbn [bind fst snd].
  rewrite H2. cbn [bind fst snd html rtf].
  rewrite <- !app_assoc. reflexivity.
Qed.

(** The run of [cite] in citation-cluster mode. *)
Lemma cite_cluster_run (h r : jstr) :
  makeCitationCluster eng [id] e1 = Return (h, e2) ->
  makeCitationCluster eng [id] e3 = Return (r, e4) ->
  cite eng id false (e0, log)
  = Return (mkData (Str h) (Str r),
            (e4, log ++ [Called (UpdateItems [id]) (outputFormat eng e0);
                         Called (MakeCitationCluster [id]) (outputFormat eng e1);
                         Called (SetOutputFormat (lit "rtf")) (outputFormat eng e2);
                         Called (MakeCitationCluster [id]) (outputFormat eng e3)])).
Proof.
  intros H1 H2.
  unfold cite, bindM, call_updateItems, call_makeCitationCluster,
    call_setOutputFormat, ret, logged.
  cbn [fst snd]. rewrite Hupdate. cbn [bind fst snd].
  rewrite H1. cbn [bind fst snd]. rewrite Hswitch. cbn [bind fst snd].
  rewrite H2. cbn [bind fst snd html rtf].
  rewrite <- !app_assoc. reflexivity.
Qed.
End Render.

(** C5. In citation-cluster mode [cite] makes exactly two cluster calls,
    both for the one-element list of the record's id. No change of format
    precedes the first call, so it is rendered in the format the engine
    had when [cite] began (its default); its output is stored in [html]
    before the single switch to "rtf", and the second call comes after the
    switch and is rendered in "rtf". *)
Theorem cite_cluster_two_calls (eng : Engine) (this : Citer eng)
    (e1 e2 e3 e4 : state eng) (h r : jstr) :
  bibliography (c_opts this) = false ->
  updateItems eng [c_id this] (c_citer this) = Return e1 ->
  outputFormat eng e1 = outputFormat eng (c_citer this) ->
  makeCitationCluster eng [c_id this] e1 = Return (h, e2) ->
  setOutputFormat eng (lit "rtf") e2 = Return e3 ->
  outputFormat eng e3 = lit "rtf" ->
  makeCitationCluster eng [c_id this] e3 = Return (r, e4) ->
  exists log,
    Citer_cite this [] = Return (mkData (Str h) (Str r), (e4, log)) /\
    log = [Called (UpdateItems [c_id this]) (outputFormat eng (c_citer this));
           Called (MakeCitationCluster [c_id this]) (outputFormat eng (c_citer this));
           Called (SetOutputFormat (lit "rtf")) (outputFormat eng e2);
           Called (MakeCitationCluster [c_id this]) (lit "rtf")] /\
    cluster_calls log
    = [([c_id this], outputFormat eng (c_citer this)); ([c_id this], lit "rtf")].
Proof.
  intros Hb Hu Hm H1 Hs Hr H2.
  eexists. split; [|split; [reflexivity|]].
  - unfold Citer_cite. rewrite Hb.
    rewrite (cite_cluster_run eng (c_id this) [] (c_citer this) e1 e2 e3 e4
               Hu Hs h r H1 H2).
    rewrite Hm, Hr. reflexivity.
  - reflexivity.
Qed.

Lemma cite_cluster_two_calls_witness :
  let id := Some (JString (lit "r1")) in
  let this := mkCiter (mode_engine sample_bib) default_opts
                (JObject [(lit "id", JString (lit "r1"))]) (Str (lit "<style/>"))
                id (lit "html") in
  exists log,
    Citer_cite this []
    = Return (mkData (Str (lit "(Doe, html)")) (Str (lit "(Doe, rtf)")),
              (lit "rtf", log)) /\
    cluster_calls log = [([id], lit "html"); ([id], lit "rtf")].
Proof.
  intros id this.
  destruct (cite_cluster_two_calls (mode_engine sample_bib) this
              (lit "html") (lit "html") (lit "rtf") (lit "rtf")
              (lit "(Doe, html)") (lit "(Doe, rtf)")
              eq_refl eq_refl eq_refl eq_refl eq_refl eq_refl eq_refl)
    as (log & H1 & _ & H3).
  exists log. split; [exact H1|exact H3].
Defined.



(** C3, refuted as stated: a bibliography wrapped in one outer [div]
    whose content runs over two lines, or is empty, reaches [html] with
    its wrapper. *)
Lemma bibliography_html_keeps_wrapper :
  let raw := lit "<div>Doe, J." ++ nl ++ lit "Title.</div>" in
  let hollow := lit "<div></div>" in
  (exists inner, raw = lit "<div>" ++ inner ++ lit "</div>") /\
  (exists w, cite (mode_engine (fun _ => [raw])) None true (lit "html", [])
             = Return (mkData (Str raw) (Str raw), w)) /\
  (exists w, cite (mode_engine (fun _ => [hollow])) None true (lit "html", [])
             = Return (mkData (Str hollow) (Str hollow), w)).
Proof.
  split; [|split].
  - exists (lit "Doe, J." ++ nl ++ lit "Title."). reflexivity.
  - eexists. vm_compute. reflexivity.
  - eexists. vm_compute. reflexivity.
Qed.

(** C3, amended. When the engine's bibliography, joined and trimmed, is a
    single line [<div ...>content</div>] with a non-empty content, [html]
    is that content: the text from the first [>] up to the final
    [</div>], stripped of its wrapper once and not further. It then
    differs from the engine's string, trimmed or not. *)
Theorem bibliography_html_stripped (eng : Engine) (id : Id) (log : list Event)
    (e0 e1 e2 e3 e4 : state eng) (m1 m2 : meta eng) (l1 l2 : list jstr)
    (a b : jstr) :
  updateItems eng [id] e0 = Return e1 ->
  makeBibliography eng e1 = Return (Some (m1, l1), e2) ->
  setOutputFormat eng (lit "rtf") e2 = Return e3 ->
  makeBibliography eng e3 = Return (Some (m2, l2), e4) ->
  trim (join nl l1) = lit "<div" ++ a ++ lit ">" ++ b ++ lit "</div>" ->
  (forall c, In c a -> c <> 62%N) ->
  b <> [] ->
  forallb RegExp.dot (a ++ b) = true ->
  exists data w,
    cite eng id true (e0, log) = Return (data, w) /\
    html data = Str b /\
    html data <> Str (join nl l1) /\
    html data <> Str (trim (join nl l1)).
Proof.
  intros Hu H1 Hs H2 E Hgt Hne Hab.
  rewrite forallb_app in Hab. apply andb_true_iff in Hab. destruct Hab as [Ha Hb].
  eexists. eexists. split.
  - apply (cite_bibliography_run eng id log e0 e1 e2 e3 e4 Hu Hs m1 m2 l1 l2 H1 H2).
  - cbn [html]. rewrite E, (strip_content a b Ha Hgt Hne Hb).
    pose proof (trim_length (join nl l1)) as HT. rewrite E in HT.
    repeat split.
    + intros H. inversion H as [Hb']. rewrite <- Hb' in HT.
      simpl in HT. rewrite ?length_app in HT. simpl in HT.
      rewrite ?length_app in HT. simpl in HT. lia.
    + intros H. inversion H as [Hb'].
      apply (f_equal (@List.length N)) in Hb'.
      simpl in Hb'. rewrite ?length_app in Hb'. simpl in Hb'.
      rewrite ?length_app in Hb'. simpl in Hb'. lia.
Qed.

Lemma bibliography_html_stripped_witness :
  exists data w,
    cite (mode_engine sample_bib) None true (lit "html", []) = Return (data, w) /\
    html data = Str (lit "Doe, J. T. (html)") /\
    html data <> Str (join nl (sample_bib (lit "html"))).
Proof.
  destruct (bibliography_html_stripped (mode_engine sample_bib) None []
              (lit "html") (lit "html") (lit "html") (lit "rtf") (lit "rtf")
              tt tt (sample_bib (lit "html")) (sample_bib (lit "rtf"))
              (lit " class='csl-entry'") (lit "Doe, J. T. (html)")
              eq_refl eq_refl eq_refl eq_refl eq_refl)
    as (data & w & H & Hh & Hn & _).
  - intros c Hc. vm_compute in Hc.
    repeat (destruct Hc as [<-|Hc]; [discriminate|]). destruct Hc.
  - discriminate.
  - reflexivity.
  - exists data, w. split; [exact H|]. split; [exact Hh|exact Hn].
Defined.

(** ** The adapter on the examples of the specification *)

Example parse_help_first :
  parseArgs (words ["-h"; "--bogus"]%string) = Exit 0 [usage].
Proof. reflexivity. Qed.

Example parse_unknown_option :
  parseArgs (words ["--bogus"; "a.csl"; "b.json"]%string)
  = Exit 1 [lit "error: unknown option: --bogus"; usage].
Proof. reflexivity. Qed.

Example parse_three_positionals :
  parseArgs (words ["a.csl"; "b.json"; "c.json"]%string)
  = Exit 1 [lit "error: script takes 2 arguments"; usage].
Proof. reflexivity. Qed.

Example parse_locale :
  parseArgs (words ["-b"; "-l"; "fr-FR"; "a.csl"; "b.json"]%string)
  = Return (mkOpts (Str (lit "fr-FR")) (Str (lit "./locales"))
              (Str (lit "a.csl")) (Str (lit "b.json")) true false).
Proof. reflexivity. Qed.

Example locale_file_path :
  snd (retrieveLocale (one_file (lit "<locale/>") JNull)
         (mkOpts (Str (lit "fr-FR")) (Str (lit "./locales"))
            (Str (lit "a.csl")) (Str (lit "b.json")) false false)
         (Str (lit "fr-FR")))
  = Return (Str (lit "<locale/>")).
Proof. reflexivity. Qed.

Example strip_entry :
  stripOuterDiv (Str (lit "<div class='csl-entry'>Doe, J. T.</div>"))
  = Str (lit "Doe, J. T.").
Proof. reflexivity. Qed.

Example contains_misses_member :
  contains N.eqb 0%N [1; 2; 3]%N 2%N = false
  /\ contains_from_zero N.eqb 0%N [1; 2; 3]%N 2%N = true.
Proof. split; reflexivity. Qed.

(** * Further properties of the adapter *)

(** ** Reading the argument list, continued *)

Lemma flag_classes (s : jstr) :
  (is_locale s = true -> startsWith s (lit "-") = true) /\
  (is_localeDir s = true ->
   startsWith s (lit "-") = true /\ is_locale s = false) /\
  (is_bibliography s = true ->
   startsWith s (lit "-") = true /\ is_locale s = false /\
   is_localeDir s = false) /\
  (is_verbose s = true ->
   startsWith s (lit "-") = true /\ is_locale s = false /\
   is_localeDir s = false /\ is_bibliography s = false).
Proof.
  unfold is_locale, is_localeDir, is_bibliography, is_verbose.
  split; [|split; [|split]]; intros H0; apply orb_true_iff in H0;
    destruct H0 as [H0|H0]; apply eqb_eq in H0; subst; repeat split.
Qed.

(** Whatever holds of the options and is kept by the updates that the
    tokens of the list can cause, holds after the loop. *)
Lemma walk_preserves (P : Opts -> Prop) n : forall l opts args o a,
  List.length l <= n ->
  (forall s o v, In s l -> is_locale s = true -> P o -> P (set_locale o v)) ->
  (forall s o v, In s l -> is_localeDir s = true -> is_locale s = false ->
     P o -> P (set_localeDir o v)) ->
  (forall s o, In s l -> is_bibliography s = true -> P o ->
     P (set_bibliography o true)) ->
  (forall s o, In s l -> is_verbose s = true -> P o -> P (set_verbose o true)) ->
  walk l opts args = Return (o, a) -> P opts -> P o.
Proof.
  induction n as [|n IH]; intros l opts args o a Hn Hl Hd Hb Hv Hw HP.
  - destruct l; [|simpl in Hn; lia]. simpl in Hw. inversion Hw; subst. exact HP.
  - destruct l as [|s l]; [simpl in Hw; inversion Hw; subst; exact HP|].
    assert (Hrec : forall l', List.length l' <= n -> (forall x, In x l' -> In x (s :: l)) ->
              forall opts' args', walk l' opts' args' = Return (o, a) -> P opts' -> P o).
    { intros l' Hlen Hin opts' args' Hw' HP'.
      apply (IH l' opts' args' o a Hlen); eauto. }
    simpl in Hw. simpl in Hn.
    destruct (startsWith s (lit "-")).
    + destruct (is_locale s) eqn:E1.
      { destruct l as [|v l''].
        - inversion Hw; subst. apply (Hl s); auto. now left.
        - apply (Hrec l'' ltac:(simpl in Hn; lia)
                   ltac:(intros x Hx; right; right; exact Hx) _ _ Hw).
          apply (Hl s); auto. now left. }
      destruct (is_localeDir s) eqn:E2.
      { destruct l as [|v l''].
        - inversion Hw; subst. apply (Hd s); auto. now left.
        - apply (Hrec l'' ltac:(simpl in Hn; lia)
                   ltac:(intros x Hx; right; right; exact Hx) _ _ Hw).
          apply (Hd s); auto. now left. }
      destruct (is_bibliography s) eqn:E3.
      { apply (Hrec l ltac:(lia) ltac:(intros x Hx; right; exact Hx) _ _ Hw).
        apply (Hb s); auto. now left. }
      destruct (is_verbose s) eqn:E4.
      { apply (Hrec l ltac:(lia) ltac:(intros x Hx; right; exact Hx) _ _ Hw).
        apply (Hv s); auto. now left. }
      discriminate Hw.
    + apply (Hrec l ltac:(lia) ltac:(intros x Hx; right; exact Hx) _ _ Hw HP).
Qed.

(** The loop reads a prefix that does not end in a flag waiting for its
    value, and then goes on with what follows, unless it ends on an
    unknown flag. *)
Lemma walk_prefix n : forall pre rest opts args,
  List.length pre <= n ->
  ends_with_value_flag pre = false ->
  unknown_exit (pre ++ rest) (walk (pre ++ rest) opts args)
  \/ exists opts' args', walk (pre ++ rest) opts args = walk rest opts' args'.
Proof.
  induction n as [|n IH]; intros pre rest opts args Hn He.
  - destruct pre; [|simpl in Hn; lia]. right. exists opts, args. reflexivity.
  - destruct pre as [|t pre]; [right; exists opts, args; reflexivity|].
    assert (Hrec : forall o a,
      unknown_exit ((t :: pre) ++ rest) (walk (pre ++ rest) o a)
      \/ exists opts' args', walk (pre ++ rest) o a = walk rest opts' args').
    { intros o a. destruct (IH pre rest o a) as [H|H]; auto.
      - simpl in Hn; lia.
      - unfold ends_with_value_flag in *. simpl in He.
        destruct (rev pre) as [|u r]; [reflexivity|exact He].
      - left. apply unknown_exit_cons, H. }
    assert (Hval : takes_value t = true ->
      forall set : Opts -> value -> Opts,
      let w := match pre ++ rest with
               | [] => Return (set opts Undefined, args)
               | v :: l'' => walk l'' (set opts (Str v)) args
               end in
      unknown_exit ((t :: pre) ++ rest) w
      \/ exists opts' args', w = walk rest opts' args').
    { intros Ht set. destruct pre as [|v pre].
      - unfold ends_with_value_flag in He. simpl in He. congruence.
      - simpl. destruct (IH pre rest (set opts (Str v)) args) as [H|H]; auto.
        + simpl in Hn; lia.
        + unfold ends_with_value_flag in *. simpl in He.
          destruct (rev pre) as [|u r]; [reflexivity|]. simpl in He. exact He.
        + left. do 2 apply unknown_exit_cons. exact H. }
    simpl app. simpl walk. unfold takes_value in Hval.
    destruct (startsWith t (lit "-")) eqn:Hs; [|apply Hrec].
    destruct (is_locale t) eqn:H1; [apply (Hval eq_refl set_locale)|].
    destruct (is_localeDir t) eqn:H2; [apply (Hval eq_refl set_localeDir)|].
    destruct (is_bibliography t) eqn:H3; [apply Hrec|].
    destruct (is_verbose t) eqn:H4; [apply Hrec|].
    left. exists t. split; [now left|]. split; [|reflexivity].
    unfold unknown_flag. rewrite Hs, H1, H2, H3, H4. reflexivity.
Qed.

Lemma walk_positional_prefix (pre rest : list jstr) : forall opts args,
  forallb is_positional pre = true ->
  walk (pre ++ rest) opts args = walk rest opts (args ++ pre).
Proof.
  induction pre as [|s pre IH]; intros opts args H; simpl in *.
  - rewrite app_nil_r. reflexivity.
  - apply andb_true_iff in H. destruct H as [Hs H].
    unfold is_positional in Hs. apply negb_true_iff in Hs. rewrite Hs.
    rewrite IH by exact H. rewrite <- app_assoc. reflexivity.
Qed.

Lemma unknown_exit_not_return {A} l (o : Outcome A) a :
  unknown_exit l o -> o = Return a -> False.
Proof.
  intros (t & _ & _ & ->) H. discriminate H.
Qed.

Lemma parseArgs_return (argv : list jstr) (o : Opts) :
  parseArgs argv = Return o ->
  existsb is_help argv = false /\ argv <> [] /\
  exists o' args, walk argv default_opts [] = Return (o', args) /\
                  finish (o', args) = Return o.
Proof.
  intros H.
  destruct (existsb is_help argv) eqn:Hh.
  { rewrite (parseArgs_help argv Hh) in H. discriminate H. }
  destruct argv as [|s l]; [discriminate H|].
  split; [reflexivity|]. split; [discriminate|].
  rewrite parseArgs_walk in H by (auto; discriminate).
  destruct (walk (s :: l) default_opts []) as [[o' args]| |]; try discriminate H.
  exists o', args. split; [reflexivity|exact H].
Qed.

Lemma finish_fields (o' o : Opts) (args : list jstr) :
  finish (o', args) = Return o ->
  List.length args <= 2 /\
  locale o = locale o' /\ localeDir o = localeDir o' /\
  bibliography o = bibliography o' /\ verbose o = verbose o' /\
  (style o' = Null -> style o = arg_or_null args 0) /\
  (csl o' = Null -> csl o = arg_or_null args 1).
Proof.
  unfold finish, arg_or_null, index.
  destruct (Nat.ltb_spec 2 (List.length args)); simpl; [discriminate|].
  intros E. inversion E; subst; clear E.
  destruct args as [|x [|y args]]; simpl; repeat split; auto; lia.
Qed.

(** What a successful parse has read: the loop ran to the end, collected
    the positional arguments, and the final checks let it pass. *)
Lemma parseArgs_fields (argv : list jstr) (o : Opts) :
  parseArgs argv = Return o ->
  existsb is_help argv = false /\ argv <> [] /\
  List.length (positionals argv) <= 2 /\
  style o = arg_or_null (positionals argv) 0 /\
  csl o = arg_or_null (positionals argv) 1 /\
  exists o', walk argv default_opts [] = Return (o', positionals argv) /\
    locale o = locale o' /\ localeDir o = localeDir o' /\
    bibliography o = bibliography o' /\ verbose o = verbose o'.
Proof.
  intros H. destruct (parseArgs_return argv o H) as (Hh & Hne & o' & args & Hw & Hf).
  split; [exact Hh|]. split; [exact Hne|].
  destruct (walk_collects (List.length argv) argv default_opts [] (le_n _))
    as [Hu|[o'' Hc]].
  { exfalso. exact (unknown_exit_not_return _ _ _ Hu Hw). }
  rewrite Hw in Hc. change ([] ++ positionals argv) with (positionals argv) in Hc.
  inversion Hc; subst o'' args.
  assert (Hnull : style o' = Null /\ csl o' = Null).
  { apply (walk_preserves (fun x => style x = Null /\ csl x = Null)
             (List.length argv) argv default_opts [] o' (positionals argv) (le_n _));
      auto. }
  destruct Hnull as [Hs Hc'].
  destruct (finish_fields o' o (positionals argv) Hf)
    as (Hlen & Hl & Hd & Hb & Hv & Hst & Hcs).
  repeat split; auto. exists o'. repeat split; auto.
Qed.

(** X1. Parsing never throws and ends in one of four ways: usage and
    status 0 (exactly when a help flag is present or the list is empty), an
    error about an unknown flag of the list and status 1, the error about
    the number of arguments and status 1 (only with more than two
    positional arguments), or a configuration (only with at most two). *)
Theorem parseArgs_outcomes (argv : list jstr) :
  (parseArgs argv = Exit 0 [usage] /\
   (existsb is_help argv = true \/ argv = [])) \/
  (existsb is_help argv = false /\ argv <> [] /\
   ((exists t, In t argv /\ unknown_flag t = true /\
       parseArgs argv = Exit 1 [lit "error: unknown option: " ++ t; usage]) \/
    (2 < List.length (positionals argv) /\
     parseArgs argv = Exit 1 [lit "error: script takes 2 arguments"; usage]) \/
    (List.length (positionals argv) <= 2 /\
     exists o, parseArgs argv = Return o))).
Proof.
  destruct (existsb is_help argv) eqn:Hh.
  { left. split; [apply parseArgs_help, Hh|now left]. }
  destruct argv as [|s l]; [left; split; [reflexivity|now right]|].
  right. split; [reflexivity|]. split; [discriminate|].
  rewrite parseArgs_walk by (auto; discriminate).
  destruct (walk_collects (List.length (s :: l)) (s :: l) default_opts [] (le_n _))
    as [Hu|[o Hc]].
  - left. exact (unknown_exit_bind _ _ finish Hu).
  - right. rewrite Hc. remember (positionals (s :: l)) as ps eqn:Eps.
    cbn [app bind]. unfold finish.
    destruct (Nat.ltb_spec 2 (List.length ps)).
    + left. split; [assumption|reflexivity].
    + right. split; [assumption|]. eexists. reflexivity.
Qed.

(** X2. In a configuration that parsing returns, the style is the first
    positional argument and the record the second, in the order given and
    wherever the flags stand; a missing one is left [null]. *)
Theorem parseArgs_positional_arguments (argv : list jstr) (o : Opts) :
  parseArgs argv = Return o ->
  List.length (positionals argv) <= 2 /\
  style o = arg_or_null (positionals argv) 0 /\
  csl o = arg_or_null (positionals argv) 1.
Proof.
  intros H. destruct (parseArgs_fields argv o H) as (_ & _ & H1 & H2 & H3 & _).
  auto.
Qed.

Lemma parseArgs_positional_arguments_witness :
  positionals (words ["-l"; "a.csl"; "b.csl"; "-b"; "c.json"]%string)
  = words ["b.csl"; "c.json"]%string /\
  style (mkOpts (Str (lit "a.csl")) (Str (lit "./locales")) (Str (lit "b.csl"))
           (Str (lit "c.json")) true false) = Str (lit "b.csl").
Proof.
  split; [reflexivity|].
  destruct (parseArgs_positional_arguments
              (words ["-l"; "a.csl"; "b.csl"; "-b"; "c.json"]%string)
              (mkOpts (Str (lit "a.csl")) (Str (lit "./locales"))
                 (Str (lit "b.csl")) (Str (lit "c.json")) true false)
              eq_refl) as (_ & H & _).
  exact H.
Defined.

(** X3. An unknown flag that comes after positional arguments only is the
    one the error names, also when there are more than two positional
    arguments before it: the loop ends on the flag before the arguments
    are counted. *)
Theorem parseArgs_unknown_before_count (argv pre post : list jstr) (s : jstr) :
  existsb is_help argv = false ->
  argv = pre ++ s :: post ->
  forallb is_positional pre = true ->
  unknown_flag s = true ->
  parseArgs argv = Exit 1 [lit "error: unknown option: " ++ s; usage].
Proof.
  intros Hh -> Hp Hu.
  rewrite parseArgs_walk by (auto; destruct pre; discriminate).
  rewrite walk_positional_prefix by exact Hp.
  unfold unknown_flag in Hu.
  repeat (apply andb_true_iff in Hu; destruct Hu as [Hu ?]).
  simpl walk. rewrite Hu.
  repeat match goal with
         | H : negb ?b = true |- _ => apply negb_true_iff in H; rewrite H
         end.
  reflexivity.
Qed.

Lemma parseArgs_unknown_before_count_witness :
  parseArgs (words ["a"; "b"; "c"; "--bogus"; "-x"]%string)
  = Exit 1 [lit "error: unknown option: --bogus"; usage].
Proof.
  apply (parseArgs_unknown_before_count
           (words ["a"; "b"; "c"; "--bogus"; "-x"]%string)
           (words ["a"; "b"; "c"]%string) (words ["-x"]%string) (lit "--bogus"));
    reflexivity.
Defined.

Lemma existsb_false_In {A} (f : A -> bool) l x :
  existsb f l = false -> In x l -> f x = false.
Proof.
  intros H Hx. destruct (f x) eqn:E; [|reflexivity].
  assert (existsb f l = true) by (apply existsb_exists; eauto). congruence.
Qed.

(** X4. [-b]/[--bibliography] and [-v]/[--verbose] only ever switch their
    option on: the option is true when the flag stands anywhere but right
    after a flag that takes a value, and false when no token of the list
    is the flag. *)
Theorem parseArgs_switches (argv : list jstr) (o : Opts) :
  parseArgs argv = Return o ->
  (existsb is_bibliography argv = false -> bibliography o = false) /\
  (existsb is_verbose argv = false -> verbose o = false) /\
  (forall pre s post, argv = pre ++ s :: post ->
     ends_with_value_flag pre = false ->
     (is_bibliography s = true -> bibliography o = true) /\
     (is_verbose s = true -> verbose o = true)).
Proof.
  intros H.
  destruct (parseArgs_fields argv o H)
    as (_ & _ & _ & _ & _ & o' & Hw & _ & _ & Hb & Hv).
  split; [|split].
  - intros Hn. rewrite Hb.
    eapply (walk_preserves (fun x => bibliography x = false) (List.length argv) argv);
      [apply le_n| | | | |exact Hw|try reflexivity]; auto.
    intros s x Hin Hs _. rewrite (existsb_false_In _ _ _ Hn Hin) in Hs.
    discriminate.
  - intros Hn. rewrite Hv.
    eapply (walk_preserves (fun x => verbose x = false) (List.length argv) argv);
      [apply le_n| | | | |exact Hw|try reflexivity]; auto.
    intros s x Hin Hs _. rewrite (existsb_false_In _ _ _ Hn Hin) in Hs.
    discriminate.
  - intros pre s post -> He.
    destruct (walk_prefix (List.length pre) pre (s :: post) default_opts []
                (le_n _) He) as [Hu|(o1 & a1 & E)].
    { exfalso. exact (unknown_exit_not_return _ _ _ Hu Hw). }
    rewrite E in Hw. simpl in Hw.
    split; intros Hs.
    + destruct (proj1 (proj2 (proj2 (flag_classes s))) Hs) as (F1 & F2 & F3).
      rewrite F1, F2, F3, Hs in Hw. rewrite Hb.
      eapply (walk_preserves (fun x => bibliography x = true) (List.length post) post);
      [apply le_n| | | | |exact Hw|try reflexivity]; auto.
    + destruct (proj2 (proj2 (proj2 (flag_classes s))) Hs) as (F1 & F2 & F3 & F4).
      rewrite F1, F2, F3, F4, Hs in Hw. rewrite Hv.
      eapply (walk_preserves (fun x => verbose x = true) (List.length post) post);
      [apply le_n| | | | |exact Hw|try reflexivity]; auto.
Qed.

Lemma parseArgs_switches_witness :
  bibliography (mkOpts (Str (lit "-v")) (Str (lit "./locales")) (Str (lit "a.csl"))
                  (Str (lit "b.json")) true false) = true.
Proof.
  destruct (parseArgs_switches
              (words ["a.csl"; "-l"; "-v"; "b.json"; "--bibliography"]%string)
              (mkOpts (Str (lit "-v")) (Str (lit "./locales")) (Str (lit "a.csl"))
                 (Str (lit "b.json")) true false) eq_refl) as (_ & _ & H).
  exact (proj1 (H (words ["a.csl"; "-l"; "-v"; "b.json"]%string)
                  (lit "--bibliography") [] eq_refl eq_refl) eq_refl).
Defined.

(** X5. Without a locale flag among the tokens the locale stays [null],
    so that the engine is given "en", unforced; without a locale-directory
    flag the directory stays "./locales". *)
Theorem parseArgs_defaults (argv : list jstr) (o : Opts) :
  parseArgs argv = Return o ->
  (existsb is_locale argv = false ->
   locale o = Null /\ effective_locale o = (Str (lit "en"), false)) /\
  (existsb is_localeDir argv = false -> localeDir o = Str (lit "./locales")).
Proof.
  intros H.
  destruct (parseArgs_fields argv o H)
    as (_ & _ & _ & _ & _ & o' & Hw & Hl & Hd & _).
  split.
  - intros Hn.
    assert (E : locale o = Null).
    { rewrite Hl.
      eapply (walk_preserves (fun x => locale x = Null) (List.length argv) argv);
      [apply le_n| | | | |exact Hw|try reflexivity]; auto.
      intros s x v Hin Hs _. rewrite (existsb_false_In _ _ _ Hn Hin) in Hs.
      discriminate. }
    split; [exact E|]. unfold effective_locale. rewrite E. reflexivity.
  - intros Hn. rewrite Hd.
    eapply (walk_preserves (fun x => localeDir x = Str (lit "./locales")) (List.length argv) argv);
      [apply le_n| | | | |exact Hw|try reflexivity]; auto.
    intros s x v Hin Hs _ _. rewrite (existsb_false_In _ _ _ Hn Hin) in Hs.
    discriminate.
Qed.

Lemma parseArgs_defaults_witness :
  effective_locale (mkOpts Null (Str (lit "./locales")) (Str (lit "a.csl"))
                      (Str (lit "b.json")) true false)
  = (Str (lit "en"), false).
Proof.
  destruct (parseArgs_defaults (words ["-b"; "a.csl"; "b.json"]%string)
              (mkOpts Null (Str (lit "./locales")) (Str (lit "a.csl"))
                 (Str (lit "b.json")) true false) eq_refl) as (H & _).
  exact (proj2 (H eq_refl)).
Defined.

(** X6. When a flag is given several times the last one counts: the locale
    (the locale directory) is the token after the last locale
    (locale-directory) flag that the loop reads as a flag. *)
Theorem parseArgs_last_value_wins (argv pre post : list jstr) (f v : jstr)
    (o : Opts) :
  parseArgs argv = Return o ->
  argv = pre ++ f :: v :: post ->
  ends_with_value_flag pre = false ->
  (is_locale f = true -> existsb is_locale post = false ->
   locale o = Str v /\
   (v <> [] -> effective_locale o = (Str v, true))) /\
  (is_localeDir f = true -> existsb is_localeDir post = false ->
   localeDir o = Str v).
Proof.
  intros H -> He.
  destruct (parseArgs_fields _ o H)
    as (_ & _ & _ & _ & _ & o' & Hw & Hl & Hd & _).
  destruct (walk_prefix (List.length pre) pre (f :: v :: post) default_opts []
              (le_n _) He) as [Hu|(o1 & a1 & E)].
  { exfalso. exact (unknown_exit_not_return _ _ _ Hu Hw). }
  rewrite E in Hw. simpl in Hw. split.
  - intros Hf Hn. rewrite (proj1 (flag_classes f) Hf), Hf in Hw.
    assert (El : locale o = Str v).
    { rewrite Hl.
      eapply (walk_preserves (fun x => locale x = Str v) (List.length post) post);
      [apply le_n| | | | |exact Hw|try reflexivity]; auto.
      intros s x w Hin Hs _. rewrite (existsb_false_In _ _ _ Hn Hin) in Hs.
      discriminate. }
    split; [exact El|]. intros Hv. unfold effective_locale. rewrite El.
    destruct v; [congruence|reflexivity].
  - intros Hf Hn. destruct (proj1 (proj2 (flag_classes f)) Hf) as [F1 F2].
    rewrite F1, F2, Hf in Hw. rewrite Hd.
    eapply (walk_preserves (fun x => localeDir x = Str v) (List.length post) post);
      [apply le_n| | | | |exact Hw|try reflexivity]; auto.
    intros s x w Hin Hs _ _. rewrite (existsb_false_In _ _ _ Hn Hin) in Hs.
    discriminate.
Qed.

Lemma parseArgs_last_value_wins_witness :
  effective_locale (mkOpts (Str (lit "fr-FR")) (Str (lit "./locales"))
                      (Str (lit "a.csl")) (Str (lit "b.json")) false false)
  = (Str (lit "fr-FR"), true).
Proof.
  destruct (parseArgs_last_value_wins
              (words ["-l"; "de-DE"; "a.csl"; "--locale"; "fr-FR"; "b.json"]%string)
              (words ["-l"; "de-DE"; "a.csl"]%string) (words ["b.json"]%string)
              (lit "--locale") (lit "fr-FR")
              (mkOpts (Str (lit "fr-FR")) (Str (lit "./locales"))
                 (Str (lit "a.csl")) (Str (lit "b.json")) false false)
              eq_refl eq_refl eq_refl) as (H & _).
  apply (proj2 (H eq_refl eq_refl)). discriminate.
Defined.

(** X7. A locale-directory flag read as the last token leaves the
    directory [undefined], and locale files are then looked for under a
    directory of that name: "undefined/locales-<lang>.xml". *)
Theorem parseArgs_dangling_locale_dir (argv pre : list jstr) (f : jstr)
    (o : Opts) :
  parseArgs argv = Return o ->
  argv = pre ++ [f] ->
  is_localeDir f = true ->
  ends_with_value_flag pre = false ->
  localeDir o = Undefined /\
  forall pf lang,
    snd (retrieveLocale pf o lang)
    = readFile pf (Str (lit "undefined/locales-" ++ to_string lang ++ lit ".xml")).
Proof.
  intros H -> Hf He.
  destruct (parseArgs_fields _ o H)
    as (_ & _ & _ & _ & _ & o' & Hw & _ & Hd & _).
  destruct (walk_prefix (List.length pre) pre [f] default_opts [] (le_n _) He)
    as [Hu|(o1 & a1 & E)].
  { exfalso. exact (unknown_exit_not_return _ _ _ Hu Hw). }
  rewrite E in Hw. simpl in Hw.
  destruct (proj1 (proj2 (flag_classes f)) Hf) as [F1 F2].
  rewrite F1, F2, Hf in Hw. inversion Hw; subst o'.
  simpl in Hd. split; [exact Hd|].
  intros pf lang. unfold retrieveLocale. simpl snd. rewrite Hd. reflexivity.
Qed.

Lemma parseArgs_dangling_locale_dir_witness :
  snd (retrieveLocale (no_files None)
         (mkOpts Null Undefined (Str (lit "a.csl")) (Str (lit "b.json"))
            false false) (Str (lit "fr-FR")))
  = readFile (no_files None) (Str (lit "undefined/locales-fr-FR.xml")).
Proof.
  exact (proj2 (parseArgs_dangling_locale_dir
                  (words ["a.csl"; "b.json"; "-L"]%string)
                  (words ["a.csl"; "b.json"]%string) (lit "-L")
                  (mkOpts Null Undefined (Str (lit "a.csl")) (Str (lit "b.json"))
                     false false)
                  eq_refl eq_refl eq_refl eq_refl)
               (no_files None) (Str (lit "fr-FR"))).
Defined.

(** ** [stripOuterDiv], continued *)

Lemma split_first_gt (a : jstr) :
  (forall c, In c a -> c <> 62%N) \/
  exists a1 a2, a = a1 ++ 62%N :: a2 /\ (forall c, In c a1 -> c <> 62%N).
Proof.
  induction a as [|c a IH].
  - left. intros c [].
  - destruct (N.eq_dec c 62) as [->|Hc].
    + right. exists [], a. split; [reflexivity|]. intros c [].
    + destruct IH as [H|(a1 & a2 & -> & H)].
      * left. intros d [<-|Hd]; auto.
      * right. exists (c :: a1), a2. split; [reflexivity|].
        intros d [<-|Hd]; auto.
Qed.

(** X8. On a single-line string [<div], [a], [>], [b], [</div>] with [b]
    not empty and no [>] in [a], the result is [b], whatever [b] contains
    (further tags, a closing [</div>], nested wrappers). Every string the
    pattern accepts is of this form: the opening tag ends at the first
    [>], the closing tag is the end of the string, and only this one
    level is removed. *)
Theorem stripOuterDiv_content (s : jstr) :
  (forall a b,
     s = lit "<div" ++ a ++ lit ">" ++ b ++ lit "</div>" ->
     (forall c, In c a -> c <> 62%N) -> b <> [] ->
     forallb RegExp.dot (a ++ b) = true ->
     stripOuterDiv (Str s) = Str b) /\
  (wrapped s ->
   exists a b,
     s = lit "<div" ++ a ++ lit ">" ++ b ++ lit "</div>" /\
     (forall c, In c a -> c <> 62%N) /\ b <> [] /\
     forallb RegExp.dot (a ++ b) = true /\
     stripOuterDiv (Str s) = Str b).
Proof.
  assert (G : forall a b,
     (forall c, In c a -> c <> 62%N) -> b <> [] ->
     forallb RegExp.dot (a ++ b) = true ->
     stripOuterDiv (Str (lit "<div" ++ a ++ lit ">" ++ b ++ lit "</div>")) = Str b).
  { intros a b Hgt Hne Hab. rewrite forallb_app in Hab.
    apply andb_true_iff in Hab. destruct Hab as [Ha Hb].
    apply strip_content; assumption. }
  split.
  - intros a b -> Hgt Hne Hab. apply G; assumption.
  - intros (a & b & -> & Hne & Hab).
    destruct (split_first_gt a) as [Hgt|(a1 & a2 & -> & Hgt)].
    + exists a, b. repeat split; auto.
    + exists a1, (a2 ++ lit ">" ++ b).
      assert (Hab' : forallb RegExp.dot (a1 ++ a2 ++ lit ">" ++ b) = true).
      { rewrite !forallb_app in *. simpl in *.
        rewrite !andb_true_iff in *. tauto. }
      assert (Hne' : a2 ++ lit ">" ++ b <> []).
      { destruct a2; discriminate. }
      assert (E : lit "<div" ++ (a1 ++ 62%N :: a2) ++ lit ">" ++ b ++ lit "</div>"
                  = lit "<div" ++ a1 ++ lit ">" ++ (a2 ++ lit ">" ++ b) ++ lit "</div>").
      { rewrite <- !app_assoc. reflexivity. }
      rewrite E. repeat split; auto.
Qed.

Lemma stripOuterDiv_content_witness :
  stripOuterDiv (Str (lit "<div class='csl-bib-body'>" ++
                      lit "<div class='csl-entry'>Doe</div>" ++ lit "</div>"))
  = Str (lit "<div class='csl-entry'>Doe</div>").
Proof.
  apply (proj1 (stripOuterDiv_content _) (lit " class='csl-bib-body'")
           (lit "<div class='csl-entry'>Doe</div>")).
  - reflexivity.
  - intros c Hc. vm_compute in Hc.
    repeat (destruct Hc as [<-|Hc]; [discriminate|]). destruct Hc.
  - discriminate.
  - reflexivity.
Defined.

Lemma dot_no_terminator (l : jstr) :
  forallb RegExp.dot l = true -> existsb is_line_terminator l = false.
Proof.
  induction l as [|c l IH]; simpl; [reflexivity|].
  unfold RegExp.dot at 1. intros H. apply andb_true_iff in H.
  destruct H as [Hc Hl]. apply negb_true_iff in Hc. rewrite Hc. simpl.
  apply IH, Hl.
Qed.

(** X9. A string that contains a line terminator anywhere, or that does
    not end in [</div>] (trailing white space, a newline after the closing
    tag), is returned unchanged. *)
Theorem stripOuterDiv_needs_one_line (s : jstr) :
  existsb is_line_terminator s = true \/ endsWith s (lit "</div>") = false ->
  stripOuterDiv (Str s) = Str s.
Proof.
  intros H. apply strip_unwrapped. intros (a & b & -> & _ & Hab).
  destruct H as [H|H].
  - rewrite forallb_app in Hab. apply andb_true_iff in Hab.
    destruct Hab as [Ha Hb].
    apply dot_no_terminator in Ha. apply dot_no_terminator in Hb.
    rewrite !existsb_app, Ha, Hb in H. discriminate H.
  - unfold endsWith in H. rewrite !app_assoc, rev_app_distr in H.
    vm_compute in H. discriminate H.
Qed.

Lemma stripOuterDiv_needs_one_line_witness :
  stripOuterDiv (Str (lit "<div>Doe</div>" ++ nl)) = Str (lit "<div>Doe</div>" ++ nl)
  /\ stripOuterDiv (Str (lit "<div>Doe</div> ")) = Str (lit "<div>Doe</div> ").
Proof.
  split.
  - apply (stripOuterDiv_needs_one_line (lit "<div>Doe</div>" ++ nl)).
    left. reflexivity.
  - apply (stripOuterDiv_needs_one_line (lit "<div>Doe</div> ")).
    right. reflexivity.
Defined.

(** ** Constructing the adapter, continued *)

(** X10. A record that does not parse, a record that is [null], and an
    engine that rejects its arguments all make the constructor throw, with
    the error of [JSON.parse], a TypeError, or the error of the engine;
    in the first two cases before the engine is constructed. *)
Theorem new_Citer_record_errors (pf : Platform) (eng : Engine) (opts : Opts) :
  let text := unwrap (initWithDataEncoding pf (contentsAtPath pf (csl opts))) in
  let style := unwrap (initWithDataEncoding pf (contentsAtPath pf (Cite.style opts))) in
  (forall e, parse pf (to_string text) = Throw e ->
     new_Citer pf eng opts = Throw e) /\
  (parse pf (to_string text) = Return JNull ->
     new_Citer pf eng opts = Throw (lit "TypeError")) /\
  (forall item id e,
     parse pf (to_string text) = Return item ->
     get_id item = Return id ->
     construct eng (mkSys (fun _ => item) (retrieveLocale pf opts)) style
       (fst (effective_locale opts)) (snd (effective_locale opts)) = Throw e ->
     new_Citer pf eng opts = Throw e).
Proof.
  intros text style. unfold new_Citer, readFile. cbn [bind].
  fold text. fold style. split; [|split].
  - intros e H. rewrite H. reflexivity.
  - intros H. rewrite H. reflexivity.
  - intros item id e H1 H2 H3. rewrite H1. cbn [bind]. rewrite H2. cbn [bind].
    destruct (effective_locale opts) as [l f]. cbn [fst snd] in H3.
    rewrite H3. reflexivity.
Qed.

Lemma new_Citer_record_errors_witness :
  new_Citer (no_files None) (mode_engine sample_bib) default_opts
  = Throw (lit "SyntaxError")
  /\ new_Citer (one_file (lit "null") JNull) (mode_engine sample_bib) default_opts
     = Throw (lit "TypeError").
Proof.
  split.
  - apply (proj1 (new_Citer_record_errors (no_files None) (mode_engine sample_bib)
                    default_opts)).
    reflexivity.
  - apply (proj1 (proj2 (new_Citer_record_errors (one_file (lit "null") JNull)
                           (mode_engine sample_bib) default_opts))).
    reflexivity.
Defined.

Lemma field_absent (name : jstr) (fields : list (jstr * Json)) :
  (forall k v, In (k, v) fields -> k <> name) -> field name fields = None.
Proof.
  induction fields as [|[k v] more IH]; intros H; simpl; [reflexivity|].
  rewrite IH by (intros k' v' Hin; apply (H k' v'); now right).
  destruct (eqb k name) eqn:E; [|reflexivity].
  apply eqb_eq in E. exfalso. apply (H k v); [now left|exact E].
Qed.

(** X11. The constructor validates neither the style nor the id: with a
    style file that cannot be read and a record object without an [id]
    field, the engine is still constructed, with the absent style text,
    and the id kept for rendering is [undefined]. *)
Theorem new_Citer_no_validation (pf : Platform) (eng : Engine) (opts : Opts)
    (fields : list (jstr * Json)) (e : state eng) :
  let text := unwrap (initWithDataEncoding pf (contentsAtPath pf (csl opts))) in
  let style := unwrap (initWithDataEncoding pf None) in
  parse pf (to_string text) = Return (JObject fields) ->
  (forall k v, In (k, v) fields -> k <> lit "id") ->
  contentsAtPath pf (Cite.style opts) = None ->
  construct eng (mkSys (fun _ => JObject fields) (retrieveLocale pf opts)) style
    (fst (effective_locale opts)) (snd (effective_locale opts)) = Return e ->
  new_Citer pf eng opts
  = Return (mkCiter eng opts (JObject fields) style None e,
            [Constructed style (fst (effective_locale opts))
                         (snd (effective_locale opts))]).
Proof.
  intros text style H1 H2 H3 H4. unfold new_Citer, readFile. cbn [bind].
  fold text. rewrite H1. cbn [bind]. rewrite H3. fold style.
  cbn [get_id bind]. rewrite (field_absent _ _ H2).
  destruct (effective_locale opts) as [l f]. cbn [fst snd] in H4.
  rewrite H4. reflexivity.
Qed.

Lemma new_Citer_no_validation_witness :
  let pf := mkPlatform
              (fun p => match p with
                        | Str (98%N :: _) => Some (lit "{}")
                        | _ => None
                        end)
              (fun d => d)
              (fun _ => Return (JObject [(lit "title", JString (lit "T"))])) in
  let opts := mkOpts Null (Str (lit "./locales")) (Str (lit "a.csl"))
                (Str (lit "b.json")) false false in
  exists c log, new_Citer pf (mode_engine sample_bib) opts = Return (c, log) /\
    c_id c = None /\ c_style c = Undefined.
Proof.
  intros pf opts.
  pose proof (new_Citer_no_validation pf (mode_engine sample_bib) opts
                [(lit "title", JString (lit "T"))] (lit "html") eq_refl) as H.
  eexists. eexists. split; [apply H|split; reflexivity].
  - intros k v [E|[]]. inversion E; subst. discriminate.
  - reflexivity.
  - reflexivity.
Defined.


(** ** Rendering, continued *)

(** What [cite] asks of the engine, read back from a result. *)
Lemma cite_inversion (eng : Engine) (id : Id) (bib : bool)
    (e0 e4 : state eng) (log log' : list Event) (d : Data) :
  cite eng id bib (e0, log) = Return (d, (e4, log')) ->
  exists e1 e2 e3,
    updateItems eng [id] e0 = Return e1 /\
    setOutputFormat eng (lit "rtf") e2 = Return e3 /\
    log' = log ++ [Called (UpdateItems [id]) (outputFormat eng e0);
                   Called (render_call bib id) (outputFormat eng e1);
                   Called (SetOutputFormat (lit "rtf")) (outputFormat eng e2);
                   Called (render_call bib id) (outputFormat eng e3)] /\
    (if bib
     then exists m1 l1 m2 l2,
            makeBibliography eng e1 = Return (Some (m1, l1), e2) /\
            makeBibliography eng e3 = Return (Some (m2, l2), e4) /\
            d = mkData (stripOuterDiv (Str (trim (join nl l1)))) (Str (join nl l2))
     else exists h r,
            makeCitationCluster eng [id] e1 = Return (h, e2) /\
            makeCitationCluster eng [id] e3 = Return (r, e4) /\
            d = mkData (Str h) (Str r)).
Proof.
  unfold cite, bindM, call_updateItems, call_makeBibliography,
    call_makeCitationCluster, call_setOutputFormat, entries, ret, lift, logged.
  cbn [fst snd].
  destruct (updateItems eng [id] e0) as [e1| |] eqn:H0; cbn [bind fst snd];
    try discriminate.
  destruct bib; cbn [bind fst snd].
  - destruct (makeBibliography eng e1) as [[[[m1 l1]|] e2]| |] eqn:H1;
      cbn [bind fst snd]; try discriminate.
    destruct (setOutputFormat eng (lit "rtf") e2) as [e3| |] eqn:H2;
      cbn [bind fst snd]; try discriminate.
    destruct (makeBibliography eng e3) as [[[[m2 l2]|] e4']| |] eqn:H3;
      cbn [bind fst snd html rtf]; try discriminate.
    intros H. inversion H; subst.
    exists e1, e2, e3. split; [reflexivity|]. split; [exact H2|].
    split; [rewrite <- !app_assoc; reflexivity|].
    exists m1, l1, m2, l2. auto.
  - destruct (makeCitationCluster eng [id] e1) as [[h e2]| |] eqn:H1;
      cbn [bind fst snd]; try discriminate.
    destruct (setOutputFormat eng (lit "rtf") e2) as [e3| |] eqn:H2;
      cbn [bind fst snd]; try discriminate.
    destruct (makeCitationCluster eng [id] e3) as [[r e4']| |] eqn:H3;
      cbn [bind fst snd html rtf]; try discriminate.
    intros H. inversion H; subst.
    exists e1, e2, e3. split; [reflexivity|]. split; [exact H2|].
    split; [rewrite <- !app_assoc; reflexivity|].
    exists h, r. auto.
Qed.

(** X12. [cite] returns a result only after all four engine calls have
    returned: the update of the items, a render, the switch to "rtf" and a
    second render, in this order and nothing else; the result holds the
    outputs of the two renders, and the engine is left in the state after
    the second one. *)
Theorem cite_result_needs_all_calls (eng : Engine) (id : Id) (bib : bool)
    (e0 e4 : state eng) (log log' : list Event) (d : Data) :
  cite eng id bib (e0, log) = Return (d, (e4, log')) ->
  exists e1 e2 e3,
    updateItems eng [id] e0 = Return e1 /\
    setOutputFormat eng (lit "rtf") e2 = Return e3 /\
    log' = log ++ [Called (UpdateItems [id]) (outputFormat eng e0);
                   Called (render_call bib id) (outputFormat eng e1);
                   Called (SetOutputFormat (lit "rtf")) (outputFormat eng e2);
                   Called (render_call bib id) (outputFormat eng e3)] /\
    (if bib
     then exists m1 l1 m2 l2,
            makeBibliography eng e1 = Return (Some (m1, l1), e2) /\
            makeBibliography eng e3 = Return (Some (m2, l2), e4) /\
            d = mkData (stripOuterDiv (Str (trim (join nl l1)))) (Str (join nl l2))
     else exists h r,
            makeCitationCluster eng [id] e1 = Return (h, e2) /\
            makeCitationCluster eng [id] e3 = Return (r, e4) /\
            d = mkData (Str h) (Str r)).
Proof.
  apply cite_inversion.
Qed.

Lemma cite_result_needs_all_calls_witness :
  exists e1 e2 e3 : jstr,
    setOutputFormat (mode_engine sample_bib) (lit "rtf") e2 = Return e3 /\
    updateItems (mode_engine sample_bib) [None] (lit "html") = Return e1.
Proof.
  destruct (cite_result_needs_all_calls (mode_engine sample_bib) None false
              (lit "html") (lit "rtf") [] _
              (mkData (Str (lit "(Doe, html)")) (Str (lit "(Doe, rtf)")))
              eq_refl) as (e1 & e2 & e3 & H1 & H2 & _).
  exists e1, e2, e3. split; assumption.
Defined.

(** X13. When the engine's bibliography is not a pair (the engine answers
    [false] for a style without bibliography), [cite] throws a TypeError:
    at the first request before the format is switched, at the second
    although [html] was already computed. No partial result is
    returned. *)
Theorem cite_bibliography_not_a_pair (eng : Engine) (id : Id)
    (log : list Event) (e0 e1 e2 : state eng) :
  updateItems eng [id] e0 = Return e1 ->
  (makeBibliography eng e1 = Return (None, e2) ->
   cite eng id true (e0, log) = Throw (lit "TypeError")) /\
  (forall m1 l1 e3 e4,
     makeBibliography eng e1 = Return (Some (m1, l1), e2) ->
     setOutputFormat eng (lit "rtf") e2 = Return e3 ->
     makeBibliography eng e3 = Return (None, e4) ->
     cite eng id true (e0, log) = Throw (lit "TypeError")).
Proof.
  intros H0.
  unfold cite, bindM, call_updateItems, call_makeBibliography,
    call_setOutputFormat, entries, ret, lift, logged.
  cbn [fst snd]. rewrite H0. cbn [bind fst snd]. split.
  - intros H1. rewrite H1. reflexivity.
  - intros m1 l1 e3 e4 H1 H2 H3. rewrite H1. cbn [bind fst snd].
    rewrite H2. cbn [bind fst snd]. rewrite H3. reflexivity.
Qed.

Lemma cite_bibliography_not_a_pair_witness :
  let eng := mkEngine (state := jstr) (meta := unit)
               (fun _ _ _ _ => Return (lit "html"))
               (fun _ e => Return e)
               (fun e => Return (None, e))
               (fun _ e => Return (e, e))
               (fun name _ => Return name)
               (fun e => e) in
  cite eng None true (lit "html", []) = Throw (lit "TypeError").
Proof.
  intros eng.
  apply (proj1 (cite_bibliography_not_a_pair eng None [] (lit "html")
                  (lit "html") (lit "html") eq_refl)).
  reflexivity.
Defined.

(** X14. An error that the engine throws in any of the four calls is the
    error [cite] throws, in either mode; nothing is retried and no result
    is returned. *)
Theorem cite_engine_error_propagates (eng : Engine) (id : Id) (bib : bool)
    (log : list Event) (e0 : state eng) (err : jstr) :
  (updateItems eng [id] e0 = Throw err ->
   cite eng id bib (e0, log) = Throw err) /\
  (forall e1,
     updateItems eng [id] e0 = Return e1 ->
     (makeCitationCluster eng [id] e1 = Throw err ->
      cite eng id false (e0, log) = Throw err) /\
     (makeBibliography eng e1 = Throw err ->
      cite eng id true (e0, log) = Throw err) /\
     (forall h e2,
        makeCitationCluster eng [id] e1 = Return (h, e2) ->
        (setOutputFormat eng (lit "rtf") e2 = Throw err ->
         cite eng id false (e0, log) = Throw err) /\
        (forall e3, setOutputFormat eng (lit "rtf") e2 = Return e3 ->
           makeCitationCluster eng [id] e3 = Throw err ->
           cite eng id false (e0, log) = Throw err)) /\
     (forall m l e2,
        makeBibliography eng e1 = Return (Some (m, l), e2) ->
        (setOutputFormat eng (lit "rtf") e2 = Throw err ->
         cite eng id true (e0, log) = Throw err) /\
        (forall e3, setOutputFormat eng (lit "rtf") e2 = Return e3 ->
           makeBibliography eng e3 = Throw err ->
           cite eng id true (e0, log) = Throw err))).
Proof.
  unfold cite, bindM, call_updateItems, call_makeBibliography,
    call_makeCitationCluster, call_setOutputFormat, entries, ret, lift, logged.
  cbn [fst snd]. split.
  - intros H. rewrite H. reflexivity.
  - intros e1 H0. rewrite H0. cbn [bind fst snd].
    split; [|split; [|split]].
    + intros H. rewrite H. reflexivity.
    + intros H. rewrite H. reflexivity.
    + intros h e2 H. rewrite H. cbn [bind fst snd]. split.
      * intros H1. rewrite H1. reflexivity.
      * intros e3 H1 H2. rewrite H1. cbn [bind fst snd]. rewrite H2. reflexivity.
    + intros m l e2 H. rewrite H. cbn [bind fst snd]. split.
      * intros H1. rewrite H1. reflexivity.
      * intros e3 H1 H2. rewrite H1. cbn [bind fst snd]. rewrite H2. reflexivity.
Qed.

Lemma cite_engine_error_propagates_witness :
  let eng := mkEngine (state := jstr) (meta := unit)
               (fun _ _ _ _ => Return (lit "html"))
               (fun _ e => Return e)
               (fun e => Return (None, e))
               (fun _ e => Return (e, e))
               (fun name _ => Throw (lit "unknown format"))
               (fun e => e) in
  cite eng None false (lit "html", []) = Throw (lit "unknown format").
Proof.
  intros eng.
  destruct (proj2 (cite_engine_error_propagates eng None false [] (lit "html")
                     (lit "unknown format")) (lit "html") eq_refl)
    as (_ & _ & H & _).
  apply (proj1 (H (lit "html") (lit "html") eq_refl)). reflexivity.
Defined.

(** X15. [cite] switches the engine to "rtf" and never back, in either
    mode. On an engine whose item updates and renders keep the output
    format and whose switch sets it, the engine is in "rtf" after a
    successful [cite], and a second [cite] on the same engine makes all of
    its calls, the render for [html] included, in "rtf". *)
Theorem cite_leaves_engine_in_rtf (eng : Engine) (id : Id) (bib : bool)
    (e0 e4 e8 : state eng) (log1 log2 : list Event) (d1 d2 : Data) :
  (forall x y, updateItems eng [id] x = Return y ->
     outputFormat eng y = outputFormat eng x) ->
  (forall x y h, makeCitationCluster eng [id] x = Return (h, y) ->
     outputFormat eng y = outputFormat eng x) ->
  (forall x y r, makeBibliography eng x = Return (r, y) ->
     outputFormat eng y = outputFormat eng x) ->
  (forall x y, setOutputFormat eng (lit "rtf") x = Return y ->
     outputFormat eng y = lit "rtf") ->
  cite eng id bib (e0, []) = Return (d1, (e4, log1)) ->
  cite eng id bib (e4, []) = Return (d2, (e8, log2)) ->
  outputFormat eng e4 = lit "rtf" /\
  log1 = [Called (UpdateItems [id]) (outputFormat eng e0);
          Called (render_call bib id) (outputFormat eng e0);
          Called (SetOutputFormat (lit "rtf")) (outputFormat eng e0);
          Called (render_call bib id) (lit "rtf")] /\
  log2 = [Called (UpdateItems [id]) (lit "rtf");
          Called (render_call bib id) (lit "rtf");
          Called (SetOutputFormat (lit "rtf")) (lit "rtf");
          Called (render_call bib id) (lit "rtf")] /\
  outputFormat eng e8 = lit "rtf".
Proof.
  intros Hu Hc Hb Hs H1 H2.
  apply cite_inversion in H1.
  destruct H1 as (e1 & e2 & e3 & A0 & A2 & -> & A).
  apply cite_inversion in H2.
  destruct H2 as (e5 & e6 & e7 & B0 & B2 & -> & B).
  assert (R1 : outputFormat eng e2 = outputFormat eng e1 /\
               outputFormat eng e4 = outputFormat eng e3).
  { destruct bib.
    - destruct A as (m1 & l1 & m2 & l2 & A1 & A3 & _).
      split; [apply (Hb _ _ _ A1)|apply (Hb _ _ _ A3)].
    - destruct A as (h & r & A1 & A3 & _).
      split; [apply (Hc _ _ _ A1)|apply (Hc _ _ _ A3)]. }
  assert (R2 : outputFormat eng e6 = outputFormat eng e5 /\
               outputFormat eng e8 = outputFormat eng e7).
  { destruct bib.
    - destruct B as (m1 & l1 & m2 & l2 & B1 & B3 & _).
      split; [apply (Hb _ _ _ B1)|apply (Hb _ _ _ B3)].
    - destruct B as (h & r & B1 & B3 & _).
      split; [apply (Hc _ _ _ B1)|apply (Hc _ _ _ B3)]. }
  destruct R1 as [R12 R14]. destruct R2 as [R26 R28].
  assert (M4 : outputFormat eng e4 = lit "rtf").
  { rewrite R14. apply (Hs _ _ A2). }
  split; [exact M4|]. simpl app.
  rewrite R12, (Hu _ _ A0), (Hs _ _ A2), R26, (Hu _ _ B0), M4, (Hs _ _ B2).
  repeat split. rewrite R28. apply (Hs _ _ B2).
Qed.

Lemma cite_leaves_engine_in_rtf_witness :
  let rtf := lit "rtf" in
  let second := [Called (UpdateItems [None]) rtf;
                 Called MakeBibliography rtf;
                 Called (SetOutputFormat rtf) rtf;
                 Called MakeBibliography rtf] in
  cite (mode_engine two_entries) None true (rtf, [])
  = Return (mkData (Str (lit "Doe, J. (rtf)" ++ nl ++ lit "  Roe, R."))
                   (Str (lit "  Doe, J. (rtf)" ++ nl ++ lit "  Roe, R." ++ nl)),
            (rtf, second)) /\
  second = [Called (UpdateItems [None]) rtf;
            Called (render_call true None) rtf;
            Called (SetOutputFormat rtf) rtf;
            Called (render_call true None) rtf].
Proof.
  intros rtf second. split; [reflexivity|].
  refine (proj1 (proj2 (proj2 (cite_leaves_engine_in_rtf (mode_engine two_entries)
            None true (lit "html") rtf rtf
            [Called (UpdateItems [None]) (lit "html");
             Called MakeBibliography (lit "html");
             Called (SetOutputFormat rtf) (lit "html");
             Called MakeBibliography rtf]
            second
            (mkData (Str (lit "Doe, J. (html)" ++ nl ++ lit "  Roe, R."))
                    (Str (lit "  Doe, J. (rtf)" ++ nl ++ lit "  Roe, R." ++ nl)))
            (mkData (Str (lit "Doe, J. (rtf)" ++ nl ++ lit "  Roe, R."))
                    (Str (lit "  Doe, J. (rtf)" ++ nl ++ lit "  Roe, R." ++ nl)))
            _ _ _ _ eq_refl eq_refl)))).
  - intros x y H. inversion H. reflexivity.
  - intros x y h H. inversion H. reflexivity.
  - intros x y r H. inversion H. reflexivity.
  - intros x y H. inversion H. reflexivity.
Defined.

(** ** [run] *)

Lemma new_Citer_opts (pf : Platform) (eng : Engine) (opts : Opts) c log :
  new_Citer pf eng opts = Return (c, log) -> c_opts c = opts.
Proof.
  unfold new_Citer, readFile. simpl.
  destruct (parse pf _) as [item| |]; simpl; try discriminate.
  destruct (get_id item) as [id| |]; simpl; try discriminate.
  destruct (effective_locale opts) as [l f]. simpl.
  destruct (construct eng _ _ l f) as [e| |]; simpl; try discriminate.
  intros H. inversion H; subst. reflexivity.
Qed.

(** X16. Help and usage errors are settled by the parser alone: whatever
    the disk holds and whatever the engine would do, [run] prints nothing
    of its own and ends as the parser ended; with a help flag or without
    arguments, with the usage text and status 0. *)
Theorem run_usage_exit (pf : Platform) (eng : Engine) (stringify : Data -> jstr)
    (argv : list jstr) :
  (existsb is_help argv = true \/ argv = [] ->
   run pf eng stringify argv = ([], Exit 0 [usage])) /\
  (forall st out, parseArgs argv = Exit st out ->
   run pf eng stringify argv = ([], Exit st out)).
Proof.
  split.
  - intros H. unfold run.
    assert (E : parseArgs argv = Exit 0 [usage]).
    { destruct H as [H| ->]; [apply parseArgs_help, H|reflexivity]. }
    rewrite E. reflexivity.
  - intros st out H. unfold run. rewrite H. reflexivity.
Qed.

Lemma run_usage_exit_witness :
  run (no_files None) (mode_engine sample_bib) two_lines
    (words ["a.csl"; "--help"]%string) = ([], Exit 0 [usage])
  /\ run (no_files None) (mode_engine sample_bib) two_lines
       (words ["-x"; "a.csl"]%string)
     = ([], Exit 1 [lit "error: unknown option: -x"; usage]).
Proof.
  split.
  - apply (proj1 (run_usage_exit (no_files None) (mode_engine sample_bib) two_lines
                    (words ["a.csl"; "--help"]%string))).
    left. reflexivity.
  - apply (proj2 (run_usage_exit (no_files None) (mode_engine sample_bib) two_lines
                    (words ["-x"; "a.csl"]%string))).
    reflexivity.
Defined.

(** What a successful construction has done. *)
Lemma new_Citer_inversion (pf : Platform) (eng : Engine) (opts : Opts)
    (c : Citer eng) (log : list Event) :
  new_Citer pf eng opts = Return (c, log) ->
  c_opts c = opts /\
  parse pf (to_string (unwrap (initWithDataEncoding pf
                                 (contentsAtPath pf (csl opts)))))
  = Return (c_item c) /\
  c_style c = unwrap (initWithDataEncoding pf (contentsAtPath pf (style opts))) /\
  get_id (c_item c) = Return (c_id c) /\
  construct eng (mkSys (fun _ => c_item c) (retrieveLocale pf opts)) (c_style c)
    (fst (effective_locale opts)) (snd (effective_locale opts))
  = Return (c_citer c) /\
  log = [Constructed (c_style c) (fst (effective_locale opts))
                     (snd (effective_locale opts))].
Proof.
  unfold new_Citer, readFile. cbn [bind].
  destruct (parse pf _) as [item| |] eqn:Hp; cbn [bind]; try discriminate.
  destruct (get_id item) as [id| |] eqn:Hi; cbn [bind]; try discriminate.
  destruct (effective_locale opts) as [l f]. cbn [fst snd].
  destruct (construct eng _ _ l f) as [e| |] eqn:Hc; cbn [bind]; try discriminate.
  intros H. inversion H; subst. cbn. repeat split; auto.
Qed.

(** X17. A run that returns a result has parsed a configuration, read and
    parsed the record, constructed the engine once with the style text and
    the effective locale of that configuration, and then made the four
    calls of [cite] for the id of the parsed record, in the mode of the
    configuration; what it returns is [JSON.stringify] of the data made of
    the two render outputs. In verbose mode it has printed its three
    status lines, and nothing otherwise. *)
Theorem run_result_calls (pf : Platform) (eng : Engine)
    (stringify : Data -> jstr) (argv : list jstr) (out : jstr)
    (log : list Event) :
  snd (run pf eng stringify argv) = Return (out, log) ->
  exists opts (c : Citer eng) d e1 e2 e3 e4,
    parseArgs argv = Return opts /\
    fst (run pf eng stringify argv)
    = (if verbose opts
       then [lit "bibliography=" ++ bool_string (bibliography opts);
             lit "csl=" ++ to_string (csl opts);
             lit "style=" ++ to_string (style opts)]
       else []) /\
    c_opts c = opts /\
    parse pf (to_string (unwrap (initWithDataEncoding pf
                                   (contentsAtPath pf (csl opts)))))
    = Return (c_item c) /\
    get_id (c_item c) = Return (c_id c) /\
    c_style c = unwrap (initWithDataEncoding pf (contentsAtPath pf (style opts))) /\
    construct eng (mkSys (fun _ => c_item c) (retrieveLocale pf opts)) (c_style c)
      (fst (effective_locale opts)) (snd (effective_locale opts))
    = Return (c_citer c) /\
    updateItems eng [c_id c] (c_citer c) = Return e1 /\
    setOutputFormat eng (lit "rtf") e2 = Return e3 /\
    (if bibliography opts
     then exists m1 l1 m2 l2,
            makeBibliography eng e1 = Return (Some (m1, l1), e2) /\
            makeBibliography eng e3 = Return (Some (m2, l2), e4) /\
            d = mkData (stripOuterDiv (Str (trim (join nl l1)))) (Str (join nl l2))
     else exists h r,
            makeCitationCluster eng [c_id c] e1 = Return (h, e2) /\
            makeCitationCluster eng [c_id c] e3 = Return (r, e4) /\
            d = mkData (Str h) (Str r)) /\
    out = stringify d /\
    log = [Constructed (c_style c) (fst (effective_locale opts))
                       (snd (effective_locale opts));
           Called (UpdateItems [c_id c]) (outputFormat eng (c_citer c));
           Called (render_call (bibliography opts) (c_id c)) (outputFormat eng e1);
           Called (SetOutputFormat (lit "rtf")) (outputFormat eng e2);
           Called (render_call (bibliography opts) (c_id c)) (outputFormat eng e3)].
Proof.
  unfold run. destruct (parseArgs argv) as [opts| |] eqn:Hp; cbn [fst snd];
    try discriminate.
  destruct (new_Citer pf eng opts) as [[c log0]| |] eqn:Hc; cbn [bind fst snd];
    try discriminate.
  destruct (new_Citer_inversion _ _ _ _ _ Hc) as (Ho & Hpa & Hst & Hid & Hco & Hl).
  unfold Citer_cite. rewrite Ho.
  destruct (cite eng (c_id c) (bibliography opts) (c_citer c, log0))
    as [[d [e4 log']]| |] eqn:Hr; cbn [bind fst snd]; try discriminate.
  intros H. inversion H; subst out log'.
  apply cite_inversion in Hr.
  destruct Hr as (e1 & e2 & e3 & Hu & Hs & -> & Hd).
  exists opts, c, d, e1, e2, e3, e4. rewrite Hl.
  repeat (split; [solve [auto]|]). reflexivity.
Qed.

Lemma run_result_calls_witness :
  let id := Some (JString (lit "r1")) in
  let item := JObject [(lit "id", JString (lit "r1"))] in
  exists (c : Citer (mode_engine sample_bib)) d,
    c_item c = item /\ c_id c = id /\
    d = mkData (Str (lit "(Doe, html)")) (Str (lit "(Doe, rtf)")) /\
    snd (run (one_file (lit "{}") item) (mode_engine sample_bib) two_lines
           (words ["a.csl"; "b.json"]%string))
    = Return (two_lines d,
              [Constructed (Str (lit "{}")) (Str (lit "en")) false;
               Called (UpdateItems [c_id c]) (lit "html");
               Called (MakeCitationCluster [c_id c]) (lit "html");
               Called (SetOutputFormat (lit "rtf")) (lit "html");
               Called (MakeCitationCluster [c_id c]) (lit "rtf")]).
Proof.
  intros id item.
  destruct (run_result_calls (one_file (lit "{}") item)
              (mode_engine sample_bib) two_lines
              (words ["a.csl"; "b.json"]%string)
              (lit "(Doe, html)" ++ nl ++ lit "(Doe, rtf)")
              [Constructed (Str (lit "{}")) (Str (lit "en")) false;
               Called (UpdateItems [id]) (lit "html");
               Called (MakeCitationCluster [id]) (lit "html");
               Called (SetOutputFormat (lit "rtf")) (lit "html");
               Called (MakeCitationCluster [id]) (lit "rtf")]
              eq_refl)
    as (opts & c & d & e1 & e2 & e3 & e4 & Hp & _ & _ & Hit & Hid & _ & _ & Hu
        & Hs & Hd & Ho & Hl).
  inversion Hp; subst opts. cbn [bibliography] in Hd.
  destruct Hd as (h & r & H1 & H2 & ->).
  inversion Hit as [Ei]. rewrite <- Ei in Hid. inversion Hid as [Eid].
  inversion Hu; subst e1. inversion H1; subst h e2.
  inversion Hs; subst e3. inversion H2; subst r e4.
  exists c, (mkData (Str (lit "(Doe, html)")) (Str (lit "(Doe, rtf)"))).
  split; [symmetry; exact Ei|]. split; [symmetry; exact Eid|].
  split; [reflexivity|]. rewrite <- Eid. reflexivity.
Defined.

(** X18. When the record does not parse, [run] throws the error of
    [JSON.parse] after its own status lines (in verbose mode), and the
    engine is never constructed. *)
Theorem run_record_error (pf : Platform) (eng : Engine)
    (stringify : Data -> jstr) (argv : list jstr) (opts : Opts) (e : jstr) :
  parseArgs argv = Return opts ->
  parse pf (to_string (unwrap (initWithDataEncoding pf
                                 (contentsAtPath pf (csl opts))))) = Throw e ->
  run pf eng stringify argv
  = ((if verbose opts
      then [lit "bibliography=" ++ bool_string (bibliography opts);
            lit "csl=" ++ to_string (csl opts);
            lit "style=" ++ to_string (style opts)]
      else []),
     Throw e)
  /\ new_Citer pf eng opts = Throw e.
Proof.
  intros Hp He.
  assert (Hc : new_Citer pf eng opts = Throw e).
  { unfold new_Citer, readFile. cbn [bind]. rewrite He. reflexivity. }
  split; [|exact Hc].
  unfold run. rewrite Hp, Hc. reflexivity.
Qed.

Lemma run_record_error_witness :
  run (no_files None) (mode_engine sample_bib) two_lines
    (words ["-v"; "a.csl"]%string)
  = ([lit "bibliography=false"; lit "csl=null"; lit "style=a.csl"],
     Throw (lit "SyntaxError")).
Proof.
  apply (proj1 (run_record_error (no_files None) (mode_engine sample_bib) two_lines
                  (words ["-v"; "a.csl"]%string)
                  (mkOpts Null (Str (lit "./locales")) (Str (lit "a.csl")) Null
                     false true)
                  (lit "SyntaxError") eq_refl eq_refl)).
Defined.

(** ** Flags that take a value, continued *)

















